(** * A shallow embedding of [debate_engine.py] (AI Debate Arena)

    The engine routes a model identifier to a vendor adapter, drives the
    PRO/CON round loop of [run_debate], parses the judge model's JSON in
    [judge_debate], asks for the summary of [generate_summary] and assembles
    the narration script of [generate_audio].  From [app.py] it embeds the
    click handler of the run button: the API-key pre-check, the calls to the
    engine and the CSV, JSON and TXT exports.

    Vendors, the JSON library and the speech service are external: they are
    Section variables.  A vendor is a deterministic function of the whole
    history of network calls made so far and of the current call, so any
    stateful or flaky remote service is an instance. *)

From Stdlib Require Import String Ascii ZArith List Bool Lia Permutation.
From Stdlib Require Import Numbers.DecimalString Strings.Byte.
Import ListNotations.
Open Scope string_scope.

(** ** Python helpers *)

Definition nl : string := String (ascii_of_nat 10) EmptyString.
Definition dq : string := String (ascii_of_nat 34) EmptyString.
Definition sq : string := String (ascii_of_nat 39) EmptyString.

(** [str(n)] for a Python int. *)
Definition str_Z (n : Z) : string := NilZero.string_of_int (Z.to_int n).

(** [s.startswith(p)] *)
Definition startswith (s p : string) : bool := String.prefix p s.

(** [needle in hay] on strings *)
Definition str_in (needle hay : string) : bool :=
  match String.index 0 needle hay with Some _ => true | None => false end.

(** ["\n".join(parts)] *)
Definition join_nl (parts : list string) : string := String.concat nl parts.

(** [range(a, b)] over Python ints. *)
Definition range_Z (a b : Z) : list Z :=
  map (fun i => a + Z.of_nat i)%Z (seq 0 (Z.to_nat (b - a))).

(** ** Providers and routing ([get_response], lines 80-103) *)

Inductive Provider :=
| PClaude | POpenAI | PGemini | PDeepSeek | PMistral | PCohere | PGroq | PAI21.

(** The [if/elif] prefix chain of [get_response]. *)
Definition route (ai_system : string) : option Provider :=
  if startswith ai_system "claude" then Some PClaude
  else if startswith ai_system "gpt" then Some POpenAI
  else if startswith ai_system "gemini" then Some PGemini
  else if startswith ai_system "deepseek" then Some PDeepSeek
  else if startswith ai_system "mistral" then Some PMistral
  else if startswith ai_system "cohere" || startswith ai_system "command"
  then Some PCohere
  else if startswith ai_system "groq" || startswith ai_system "llama"
  then Some PGroq
  else if startswith ai_system "ai21" || startswith ai_system "jamba"
  then Some PAI21
  else None.

(** One outbound network call: vendor, model name sent, prompt, token budget
    ([max_words * 2]; the Gemini payload carries none). *)
Record Call := mkCall {
  call_provider : Provider;
  call_model : string;
  call_prompt : string;
  call_max_tokens : option Z
}.

(** What the vendor library / HTTP request does: return text, or raise
    (transport error, HTTP status, missing field in the reply, ...). *)
Inductive VendorOutcome :=
| VOk (text : string)
| VFail (detail : string).

(** One invocation of [get_response]: kept as a ghost log so that the prompts
    the orchestrator builds can be talked about. *)
Record Ask := mkAsk { ask_ai : string; ask_prompt : string; ask_max_words : Z }.

Record World := mkWorld { net : list Call; asks : list Ask }.

Definition world0 : World := mkWorld [] [].

Definition vendor_name (p : Provider) : string :=
  match p with
  | PClaude => "Claude" | POpenAI => "OpenAI" | PGemini => "Gemini"
  | PDeepSeek => "DeepSeek" | PMistral => "Mistral" | PCohere => "Cohere"
  | PGroq => "Groq" | PAI21 => "AI21"
  end.

(** The message an adapter returns when its credential (or, for Claude, the
    client built at start-up) is missing; OpenAI has no such check. *)
Definition missing_key_msg (p : Provider) : string :=
  match p with
  | PClaude => "[ERROR: Anthropic client not initialized. Check API key.]"
  | POpenAI => ""
  | PGemini => "[ERROR: GOOGLE_API_KEY not found in environment]"
  | PDeepSeek => "[ERROR: DEEPSEEK_API_KEY not found in environment]"
  | PMistral => "[ERROR: MISTRAL_API_KEY not found in environment]"
  | PCohere => "[ERROR: COHERE_API_KEY not found in environment]"
  | PGroq => "[ERROR: GROQ_API_KEY not found in environment]"
  | PAI21 => "[ERROR: AI21_API_KEY not found in environment]"
  end.

Definition checks_key (p : Provider) : bool :=
  match p with POpenAI => false | _ => true end.

(** The adapter's [except Exception as e] clause. *)
Definition adapter_error (p : Provider) (detail : string) : string :=
  "[ERROR: " ++ vendor_name p ++ " API call failed - " ++ detail ++ "]".

(** The model name each adapter sends. *)
Definition sent_model (p : Provider) (ai_system : string) : string :=
  match p with
  | PClaude | POpenAI => ai_system
  | PGemini => "gemini-2.0-flash"
  | PDeepSeek => "deepseek-chat"
  | PMistral => "mistral-large-latest"
  | PCohere => "command-r-plus-08-2024"
  | PGroq => "llama-3.3-70b-versatile"
  | PAI21 => "jamba-1.5-mini"
  end.

Definition sent_budget (p : Provider) (max_words : Z) : option Z :=
  match p with PGemini => None | _ => Some (max_words * 2)%Z end.

Definition unsupported_msg (ai_system : string) : string :=
  "[ERROR: AI system " ++ sq ++ ai_system ++ sq ++ " not supported]".

(** ** Prompts of [run_debate] (lines 277-319) *)

Definition truth_seeking_suffix : string :=
  "Your goal is to find the truth together, not to win. Be willing to concede points and adjust your position based on strong arguments.".

Definition adversarial_suffix : string :=
  "Present the strongest possible case for your position.".

(** [if mode == "Truth-Seeking": ... else: ...] *)
Definition instruction_suffix (mode : string) : string :=
  if String.eqb mode "Truth-Seeking" then truth_seeking_suffix
  else adversarial_suffix.

(** The round-1 prompt; [position] is the side line of the f-string. *)
Definition opening_prompt (position topic : string) (word_limit : Z)
    (suffix : string) : string :=
  "You are participating in a structured debate about: " ++ topic ++ nl ++
  "Your position: " ++ position ++ nl ++
  "Present your opening argument in approximately " ++ str_Z word_limit ++
  " words. " ++ suffix.

Definition pro_opening_position : string := "PRO (in favor of the proposition)".
Definition con_opening_position : string := "CON (against the proposition)".

(** The prompt of round [round_num] > 1, quoting the opponent's last text. *)
Definition rebuttal_prompt (round_num : Z) (position topic opponent : string)
    (word_limit : Z) (suffix : string) : string :=
  "You are in round " ++ str_Z round_num ++ " of a debate about: " ++ topic ++ nl ++
  "Your position: " ++ position ++ nl ++
  nl ++
  "Your opponent's last argument:" ++ nl ++
  opponent ++ nl ++
  nl ++
  "Respond to their argument in approximately " ++ str_Z word_limit ++
  " words. " ++ suffix.

(** One entry of [debate_log]. *)
Record Turn := mkTurn {
  round : Z;
  pro_ai : string;
  pro_response : string;
  con_ai : string;
  con_response : string
}.

Section Engine.

(** The remote services: a reply for each call, given all earlier calls. *)
Variable vendor : list Call -> Call -> VendorOutcome.
(** Whether a provider's credential check passes: for the adapters that read
    their key, whether the variable is set; for Claude, whether
    [anthropic_client] exists.  [__init__] builds that client even when
    [ANTHROPIC_API_KEY] is unset (the SDK only refuses the request, inside
    [messages.create]: a failing vendor call), so for Claude it is false
    only when the constructor raised. *)
Variable key_present : Provider -> bool.

(** [_get_claude_response], [_get_openai_response], ...: each adapter checks
    its credential, makes one call, and catches every exception. *)
Definition adapter (p : Provider) (ai_system prompt : string) (max_words : Z)
    (h : list Call) : string * list Call :=
  if checks_key p && negb (key_present p) then (missing_key_msg p, h)
  else
    let c := mkCall p (sent_model p ai_system) prompt (sent_budget p max_words) in
    match vendor h c with
    | VOk text => (text, (h ++ [c])%list)
    | VFail d => (adapter_error p d, (h ++ [c])%list)
    end.

(** [get_response].  Its outer [except] is unreachable here: every adapter
    already turns its exceptions into strings. *)
Definition get_response (ai_system prompt : string) (max_words : Z) (w : World)
    : string * World :=
  let asks' := (asks w ++ [mkAsk ai_system prompt max_words])%list in
  match route ai_system with
  | None => (unsupported_msg ai_system, mkWorld (net w) asks')
  | Some p =>
      let (r, h) := adapter p ai_system prompt max_words (net w) in
      (r, mkWorld h asks')
  end.

(** The [for round_num in range(2, rounds + 1)] loop; [pro_response] and
    [con_response] are the loop-carried variables. *)
Fixpoint debate_loop (topic ai_pro ai_con : string) (word_limit : Z)
    (suffix : string) (rs : list Z) (pro_response con_response : string)
    (w : World) : list Turn * World :=
  match rs with
  | [] => ([], w)
  | round_num :: rs' =>
      let pro_prompt := rebuttal_prompt round_num "PRO" topic con_response word_limit suffix in
      let con_prompt := rebuttal_prompt round_num "CON" topic pro_response word_limit suffix in
      let (pro_r, w1) := get_response ai_pro pro_prompt word_limit w in
      let (con_r, w2) := get_response ai_con con_prompt word_limit w1 in
      let (log, w3) := debate_loop topic ai_pro ai_con word_limit suffix rs' pro_r con_r w2 in
      (mkTurn round_num ai_pro pro_r ai_con con_r :: log, w3)
  end.

(** [run_debate] *)
Definition run_debate (topic ai_pro ai_con : string) (rounds word_limit : Z)
    (mode : string) (w : World) : list Turn * World :=
  let suffix := instruction_suffix mode in
  let pro_prompt := opening_prompt pro_opening_position topic word_limit suffix in
  let con_prompt := opening_prompt con_opening_position topic word_limit suffix in
  let (pro_r, w1) := get_response ai_pro pro_prompt word_limit w in
  let (con_r, w2) := get_response ai_con con_prompt word_limit w1 in
  let (log, w3) := debate_loop topic ai_pro ai_con word_limit suffix
                     (range_Z 2 (rounds + 1)) pro_r con_r w2 in
  (mkTurn 1 ai_pro pro_r ai_con con_r :: log, w3).

End Engine.

(** ** [judge_debate] (lines 384-517) *)

Set Warnings "-register-all".

(** A value [json.loads] returns; an object is a dict: one entry per key, in
    insertion order.  Python floats (JSON numbers with a fraction or an
    exponent) are not modelled: every statement over [Json] is about
    documents without them. *)
Inductive Json :=
| JNull
| JBool (b : bool)
| JInt (n : Z)
| JStr (s : string)
| JArr (xs : list Json)
| JObj (kvs : list (string * Json)).

(** The exceptions [judge_debate]'s handlers tell apart. *)
Inductive PyExc :=
| JSONDecodeError (msg : string)
| KeyError (key : string)
| OtherError (msg : string).

Definition Py (A : Type) : Type := (PyExc + A)%type.

Definition py_bind {A B : Type} (m : Py A) (f : A -> Py B) : Py B :=
  match m with inl e => inl e | inr a => f a end.

Notation "x <- m ;; k" := (py_bind m (fun x => k))
  (at level 61, m at next level, right associativity).

Definition py_type_name (x : Json) : string :=
  match x with
  | JNull => "NoneType" | JBool _ => "bool" | JInt _ => "int"
  | JStr _ => "str" | JArr _ => "list" | JObj _ => "dict"
  end.

Fixpoint assoc (k : string) (kvs : list (string * Json)) : option Json :=
  match kvs with
  | [] => None
  | (k', v) :: kvs' => if String.eqb k k' then Some v else assoc k kvs'
  end.

(** [d[k]] with a string key. *)
Definition getitem (d : Json) (k : string) : Py Json :=
  match d with
  | JObj kvs => match assoc k kvs with Some v => inr v | None => inl (KeyError k) end
  | JArr _ => inl (OtherError "list indices must be integers or slices, not str")
  | JStr _ => inl (OtherError "string indices must be integers, not 'str'")
  | x => inl (OtherError (sq ++ py_type_name x ++ sq ++ " object is not subscriptable"))
  end.

(** [d.values()] *)
Definition dict_values (d : Json) : Py (list Json) :=
  match d with
  | JObj kvs => inr (map snd kvs)
  | x => inl (OtherError (sq ++ py_type_name x ++ sq ++ " object has no attribute 'values'"))
  end.

(** The number an int or a bool counts for in [sum]. *)
Definition num_val (x : Json) : option Z :=
  match x with
  | JInt n => Some n
  | JBool b => Some (if b then 1 else 0)%Z
  | _ => None
  end.

(** [sum(xs)]: starts from the int 0 and adds the items in order; over ints
    and bools the running sum stays an int, hence the ['int'] of the
    message. *)
Fixpoint py_sum_from (acc : Z) (xs : list Json) : Py Z :=
  match xs with
  | [] => inr acc
  | x :: xs' =>
      match num_val x with
      | Some n => py_sum_from (acc + n)%Z xs'
      | None => inl (OtherError ("unsupported operand type(s) for +: 'int' and " ++
                                 sq ++ py_type_name x ++ sq))
      end
  end.

Definition py_sum (xs : list Json) : Py Z := py_sum_from 0 xs.

(** The part of [s] before its last ['}'], if [s] has one. *)
Fixpoint last_close (s : string) : option string :=
  match s with
  | EmptyString => None
  | String c s' =>
      match last_close s' with
      | Some mid => Some (String c mid)
      | None => if Ascii.eqb c "}"%char then Some EmptyString else None
      end
  end.

(** [re.search(r'\{.*\}', s, re.DOTALL)]: tried at each position from the
    left; at a ['{'] the greedy [.*] runs to the last ['}'] after it. *)
Fixpoint json_match (s : string) : option string :=
  match s with
  | EmptyString => None
  | String c s' =>
      if Ascii.eqb c "{"%char then
        match last_close s' with
        | Some mid => Some (String c (mid ++ "}"))
        | None => json_match s'
        end
      else json_match s'
  end.

Definition score_keys : list string :=
  ["argument_strength"; "evidence_quality"; "counterpoint_effectiveness";
   "good_faith"; "factual_accuracy"; "rhetorical_skill"].

(** The dict of one side under ["scores"]. *)
Record ScoreSheet := mkSheet {
  argument_strength : Json;
  evidence_quality : Json;
  counterpoint_effectiveness : Json;
  good_faith : Json;
  factual_accuracy : Json;
  rhetorical_skill : Json;
  total : Z
}.

(** The [result] dict. *)
Record Verdict := mkVerdict {
  v_judge_ai : string;
  v_pro : ScoreSheet;
  v_con : ScoreSheet;
  v_commentary : Json;
  v_verdict : Json
}.

(** [judge_debate] returns the dict, or an error string. *)
Inductive JudgeOut :=
| JVerdict (v : Verdict)
| JError (msg : string).

Definition sheet_values (s : ScoreSheet) : list Json :=
  [argument_strength s; evidence_quality s; counterpoint_effectiveness s;
   good_faith s; factual_accuracy s; rhetorical_skill s].

(** The six [judge_data[side][key]] lookups of one side, in order, with the
    total computed before. *)
Definition score_sheet (scores : Json) (side_total : Z) : Py ScoreSheet :=
  a <- getitem scores "argument_strength";;
  b <- getitem scores "evidence_quality";;
  c <- getitem scores "counterpoint_effectiveness";;
  d <- getitem scores "good_faith";;
  e <- getitem scores "factual_accuracy";;
  f <- getitem scores "rhetorical_skill";;
  inr (mkSheet a b c d e f side_total).

(** The three [except] clauses. *)
Definition judge_handler (judge_response : string) (e : PyExc) : string :=
  match e with
  | JSONDecodeError m =>
      "[ERROR: Could not parse judge response as JSON - " ++ m ++
      ". Response was: " ++ substring 0 200 judge_response ++ "...]"
  | KeyError k => "[ERROR: Missing required field in judge response - " ++ sq ++ k ++ sq ++ "]"
  | OtherError m => "[ERROR: Judge evaluation failed - " ++ m ++ "]"
  end.

Definition dquote (s : string) : string := dq ++ s ++ dq.

Definition transcript_lines (ai_pro ai_con : string) (debate_log : list Turn) : list string :=
  flat_map (fun entry =>
    ["=== ROUND " ++ str_Z (round entry) ++ " ===";
     "PRO (" ++ ai_pro ++ "):"; pro_response entry; "";
     "CON (" ++ ai_con ++ "):"; con_response entry; ""]) debate_log.

Definition judge_scores_template (side : string) (last : string) : list string :=
  ["  " ++ dquote side ++ ": {";
   "    " ++ dquote "argument_strength" ++ ": <score 0-10>,";
   "    " ++ dquote "evidence_quality" ++ ": <score 0-10>,";
   "    " ++ dquote "counterpoint_effectiveness" ++ ": <score 0-10>,";
   "    " ++ dquote "good_faith" ++ ": <score 0-10>,";
   "    " ++ dquote "factual_accuracy" ++ ": <score 0-10>,";
   "    " ++ dquote "rhetorical_skill" ++ ": <score 0-10>";
   "  }" ++ last].

Definition judge_prompt (topic mode ai_pro ai_con full_transcript : string) : string :=
  join_nl (app
  ["You are serving as a judge for a debate. Your task is to objectively evaluate both debaters' performance across multiple categories.";
   "";
   "DEBATE TOPIC: " ++ topic;
   "DEBATE MODE: " ++ mode;
   "PRO DEBATER: " ++ ai_pro;
   "CON DEBATER: " ++ ai_con;
   "";
   "FULL DEBATE TRANSCRIPT:";
   full_transcript;
   "";
   "Please score both debaters on the following categories using a 0-10 scale (where 10 is excellent, 5 is average, 0 is very poor):";
   "";
   "1. **Argument Strength** - Logic, coherence, and persuasiveness of their core arguments";
   "2. **Evidence Quality** - Use of facts, data, examples, and credible sources";
   "3. **Counterpoint Effectiveness** - How well they addressed and refuted opponent's points";
   "4. **Good Faith/Concessions** - Willingness to acknowledge valid points and debate in good faith";
   "5. **Factual Accuracy** - Truthfulness and accuracy of claims made";
   "6. **Rhetorical Skill** - Communication quality, clarity, and persuasive techniques";
   "";
   "IMPORTANT: Provide your response EXACTLY in this JSON format:";
   "";
   "{"]
  (app (judge_scores_template "pro_scores" ",")
  (app (judge_scores_template "con_scores" ",")
  ["  " ++ dquote "commentary" ++ ": " ++ dquote "2-3 paragraphs explaining your scoring decisions, highlighting strengths and weaknesses of each side" ++ ",";
   "  " ++ dquote "verdict" ++ ": " ++ dquote "Final verdict on the debate quality and which side presented a stronger case overall (if applicable)";
   "}";
   "";
   "Be objective and fair in your evaluation. Consider the debate mode when scoring (e.g., good faith matters more in Truth-Seeking mode)."]))).

Section Judge.

Variable vendor : list Call -> Call -> VendorOutcome.
Variable key_present : Provider -> bool.
(** [json.loads]: a value, or [JSONDecodeError]. *)
Variable json_loads : string -> Py Json.

(** Lines 471-477: the regex match if there is one, else the whole text. *)
Definition parse_judge_response (judge_response : string) : Py Json :=
  match json_match judge_response with
  | Some json_str => json_loads json_str
  | None => json_loads judge_response
  end.

(** Lines 471-510, up to the exception handlers. *)
Definition judge_body (judge_ai judge_response : string) : Py Verdict :=
  judge_data <- parse_judge_response judge_response;;
  pro_scores <- getitem judge_data "pro_scores";;
  pro_vals <- dict_values pro_scores;;
  pro_total <- py_sum pro_vals;;
  con_scores <- getitem judge_data "con_scores";;
  con_vals <- dict_values con_scores;;
  con_total <- py_sum con_vals;;
  pro <- score_sheet pro_scores pro_total;;
  con <- score_sheet con_scores con_total;;
  commentary <- getitem judge_data "commentary";;
  verdict <- getitem judge_data "verdict";;
  inr (mkVerdict judge_ai pro con commentary verdict).

(** Lines 465-517, once the judge model has answered. *)
Definition judge_from_response (judge_ai judge_response : string) : JudgeOut :=
  if str_in "[ERROR:" judge_response
  then JError ("[ERROR: Judge API call failed - " ++ judge_response ++ "]")
  else match judge_body judge_ai judge_response with
       | inl e => JError (judge_handler judge_response e)
       | inr v => JVerdict v
       end.

(** [judge_debate] *)
Definition judge_debate (topic : string) (debate_log : list Turn)
    (mode judge_ai ai_pro ai_con : string) (w : World) : JudgeOut * World :=
  let full_transcript := join_nl (transcript_lines ai_pro ai_con debate_log) in
  let prompt := judge_prompt topic mode ai_pro ai_con full_transcript in
  let (judge_response, w') := get_response vendor key_present judge_ai prompt 800 w in
  (judge_from_response judge_ai judge_response, w').

End Judge.

(** ** [generate_audio] (lines 519-632) *)

(** [bool(x)] *)
Definition py_truthy (x : Json) : bool :=
  match x with
  | JNull => false
  | JBool b => b
  | JInt n => negb (Z.eqb n 0)
  | JStr s => negb (String.eqb s "")
  | JArr xs => negb (Nat.eqb (length xs) 0)
  | JObj kvs => negb (Nat.eqb (length kvs) 0)
  end.

(** The items of [str.join], which must all be strings. *)
Fixpoint py_str_items (i : Z) (xs : list Json) : Py (list string) :=
  match xs with
  | [] => inr []
  | JStr s :: xs' => ss <- py_str_items (i + 1)%Z xs';; inr (s :: ss)
  | x :: _ => inl (OtherError ("sequence item " ++ str_Z i ++ ": expected str instance, " ++
                                py_type_name x ++ " found"))
  end.

(** ["\n".join(xs)] *)
Definition py_join_nl (xs : list Json) : Py string :=
  ss <- py_str_items 0 xs;; inr (join_nl ss).

(** [str(e)] *)
Definition exc_str (e : PyExc) : string :=
  match e with
  | JSONDecodeError m => m
  | KeyError k => sq ++ k ++ sq
  | OtherError m => m
  end.

Definition intro_parts (topic mode : string) (rounds : nat) (ai_pro ai_con : string) : list string :=
  ["AI Debate Arena presents: " ++ topic;
   "This is a " ++ mode ++ " debate with " ++ str_Z (Z.of_nat rounds) ++ " rounds.";
   "Arguing for the PRO side: " ++ ai_pro;
   "Arguing for the CON side: " ++ ai_con;
   "Let the debate begin!";
   ""].

Definition round_parts (entry : Turn) : list string :=
  ["Round " ++ str_Z (round entry); ""; "PRO argument:"; pro_response entry; "";
   "CON argument:"; con_response entry; ""].

(** [if summary and summary.get('summary')], with [summary] a dict or [None]. *)
Definition summary_parts (summary : option (list (string * Json))) : list Json :=
  match summary with
  | Some kvs =>
      match assoc "summary" kvs with
      | Some x => if py_truthy x then [JStr "Debate Summary"; x; JStr ""] else []
      | None => []
      end
  | None => []
  end.

(** [if judging and isinstance(judging, dict) and "scores" in judging]: only
    [judge_debate]'s dict has ["scores"]; its error strings are not dicts. *)
Definition judge_parts (judging : option JudgeOut) : list Json :=
  match judging with
  | Some (JVerdict v) =>
      map JStr ["Judge's Verdict"; "";
                "The judge has scored the debate across six categories.";
                "PRO total score: " ++ str_Z (total (v_pro v)) ++ " out of 60";
                "CON total score: " ++ str_Z (total (v_con v)) ++ " out of 60";
                ""] ++
      [JStr "Judge's Commentary:"; v_commentary v; JStr ""; JStr "Final Verdict:"; v_verdict v]
  | _ => []
  end.

(** [script_parts] *)
Definition audio_script (topic : string) (debate_log : list Turn) (mode : string)
    (summary : option (list (string * Json))) (judging : option JudgeOut)
    (ai_pro ai_con : string) : list Json :=
  map JStr (intro_parts topic mode (length debate_log) ai_pro ai_con ++
            flat_map round_parts debate_log) ++
  summary_parts summary ++ judge_parts judging.

(** One [synthesize_speech] request: voice and input text (the encoding is
    MP3 at rate 1.0 and pitch 0.0 in every request). *)
Record SynthCall := mkSynth {
  synth_language : string;
  synth_voice : string;
  synth_text : string
}.

Inductive TtsOutcome :=
| TtsAudio (audio_content : list byte)
| TtsFail (detail : string).

(** [generate_audio] returns bytes or an error string. *)
Inductive AudioOut :=
| AudioBytes (audio : list byte)
| AudioError (msg : string).

Definition narrator_voice : string := "en-US-Neural2-J".

Section Audio.

(** Whether [google.cloud.texttospeech] imports. *)
Variable tts_installed : bool.
(** [os.getenv('GOOGLE_API_KEY')] *)
Variable google_api_key : option string.
(** The Text-to-Speech service, as a function of the earlier requests. *)
Variable tts : list SynthCall -> SynthCall -> TtsOutcome.

Definition generate_audio (topic : string) (debate_log : list Turn) (mode : string)
    (summary : option (list (string * Json))) (judging : option JudgeOut)
    (ai_pro ai_con : string) (h : list SynthCall) : AudioOut * list SynthCall :=
  if negb tts_installed then
    (AudioError "[ERROR: google-cloud-texttospeech not installed. Run: pip install google-cloud-texttospeech]", h)
  else
    match google_api_key with
    | None | Some EmptyString => (AudioError "[ERROR: GOOGLE_API_KEY not found in environment]", h)
    | Some _ =>
        match py_join_nl (audio_script topic debate_log mode summary judging ai_pro ai_con) with
        | inl e => (AudioError ("[ERROR: Audio generation failed - " ++ exc_str e ++ "]"), h)
        | inr full_script =>
            let c := mkSynth "en-US" narrator_voice full_script in
            match tts h c with
            | TtsAudio a => (AudioBytes a, (h ++ [c])%list)
            | TtsFail d => (AudioError ("[ERROR: Audio generation failed - " ++ d ++ "]"), (h ++ [c])%list)
            end
        end
    end.

End Audio.

(** ** [generate_summary] (lines 334-382) *)

(** [[f"Round {i+1}: {arg}" for i, arg in enumerate(args)]] *)
Definition numbered_rounds (args : list string) : list string :=
  map (fun '(i, arg) => "Round " ++ str_Z (Z.of_nat i + 1) ++ ": " ++ arg)
      (combine (seq 0 (length args)) args).

Definition summary_prompt (topic : string) (debate_log : list Turn) (mode : string) : string :=
  join_nl
  ["Analyze this debate about: " ++ topic;
   "";
   "PRO Arguments (all rounds):";
   join_nl (numbered_rounds (map pro_response debate_log));
   "";
   "CON Arguments (all rounds):";
   join_nl (numbered_rounds (map con_response debate_log));
   "";
   "Debate Mode: " ++ mode;
   "";
   "Provide a brief summary (200-300 words) covering:";
   "1. Main points argued by PRO side";
   "2. Main points argued by CON side";
   "3. Key areas where they agreed or found common ground";
   "4. Key areas where they disagreed or remained opposed";
   "5. Overall observation about how the debate evolved";
   "";
   "Be objective and concise."].

Definition summary_model : string := "claude-sonnet-4-20250514".

Section Summary.

Variable vendor : list Call -> Call -> VendorOutcome.
Variable key_present : Provider -> bool.

(** [generate_summary]: it calls [_get_claude_response] itself, not
    [get_response]; its [except] is unreachable, the adapter catching
    everything. *)
Definition generate_summary (topic : string) (debate_log : list Turn) (mode : string)
    (w : World) : list (string * Json) * World :=
  let (summary_text, h) :=
    adapter vendor key_present PClaude summary_model
      (summary_prompt topic debate_log mode) 300 (net w) in
  ([("summary", JStr summary_text); ("topic", JStr topic); ("mode", JStr mode);
    ("total_rounds", JInt (Z.of_nat (length debate_log)))], mkWorld h (asks w)).

End Summary.

(** ** [app.py]: Python's [str], [repr] and [format] on the values it writes *)

Definition hex_digit (n : nat) : ascii :=
  ascii_of_nat (if (n <? 10)%nat then 48 + n else 87 + n).

Definition hex2 (n : nat) : string :=
  String (hex_digit (n / 16)) (String (hex_digit (n mod 16)) EmptyString).

(** [str.isprintable] on one character, reading a byte as a Latin-1 code
    point. *)
Definition py_printable (n : nat) : bool :=
  negb ((n <? 32)%nat || ((127 <=? n)%nat && (n <=? 160)%nat) || (n =? 173)%nat).

Fixpoint repr_chars (q : ascii) (s : string) : string :=
  match s with
  | EmptyString => EmptyString
  | String c s' =>
      let n := nat_of_ascii c in
      (if Ascii.eqb c q || (n =? 92)%nat then String "\"%char (String c EmptyString)
       else if (n =? 9)%nat then "\t"
       else if (n =? 10)%nat then "\n"
       else if (n =? 13)%nat then "\r"
       else if py_printable n then String c EmptyString
       else "\x" ++ hex2 n) ++ repr_chars q s'
  end.

(** [repr(s)] of a [str]. *)
Definition py_repr_str (s : string) : string :=
  let q := if str_in sq s && negb (str_in dq s) then ascii_of_nat 34 else ascii_of_nat 39 in
  String q (repr_chars q s ++ String q EmptyString).

(** [repr(x)] *)
Fixpoint py_repr (x : Json) : string :=
  match x with
  | JNull => "None"
  | JBool b => if b then "True" else "False"
  | JInt n => str_Z n
  | JStr s => py_repr_str s
  | JArr xs => "[" ++ String.concat ", " (map py_repr xs) ++ "]"
  | JObj kvs =>
      "{" ++ String.concat ", " (map (fun '(k, v) => py_repr_str k ++ ": " ++ py_repr v) kvs) ++ "}"
  end.

(** [str(x)] *)
Definition py_str (x : Json) : string :=
  match x with JStr s => s | _ => py_repr x end.

(** [s * n] *)
Fixpoint str_repeat (s : string) (n : nat) : string :=
  match n with O => "" | S n' => s ++ str_repeat s n' end.

(** [format(s, '<w')] on a [str]. *)
Definition pad_right (w : nat) (s : string) : string :=
  s ++ str_repeat " " (w - String.length s).

(** [format(x, '<w')]: ints and bools use [int.__format__] (a bool shows as
    [1] or [0]); [None], lists and dicts refuse a non-empty format spec. *)
Definition py_format_left (w : nat) (x : Json) : Py string :=
  match x with
  | JInt n => inr (pad_right w (str_Z n))
  | JBool b => inr (pad_right w (if b then "1" else "0"))
  | JStr s => inr (pad_right w s)
  | _ => inl (OtherError ("unsupported format string passed to " ++ py_type_name x ++
                          ".__format__"))
  end.

(** ** [app.py]: [csv.writer] with the default [excel] dialect *)

Definition cr : ascii := ascii_of_nat 13.
Definition lf : ascii := ascii_of_nat 10.
Definition crlf : string := String cr (String lf EmptyString).

(** What [writerow] writes for one field: [None] as nothing, else [str(x)]. *)
Definition csv_cell (x : Json) : string :=
  match x with JNull => "" | _ => py_str x end.

(** [QUOTE_MINIMAL]: the delimiter, the quote character and the line
    terminator's characters force quotes. *)
Definition csv_special (c : ascii) : bool :=
  Ascii.eqb c ","%char || Ascii.eqb c (ascii_of_nat 34) || Ascii.eqb c cr || Ascii.eqb c lf.

(** [doublequote=True]: a quote inside a quoted field is written twice. *)
Fixpoint double_quotes (s : string) : string :=
  match s with
  | EmptyString => EmptyString
  | String c s' =>
      if Ascii.eqb c (ascii_of_nat 34) then String c (String c (double_quotes s'))
      else String c (double_quotes s')
  end.

Definition csv_field (s : string) : string :=
  if existsb csv_special (list_ascii_of_string s) then dq ++ double_quotes s ++ dq else s.

(** [writer.writerow(fields)]: a row of one empty field is written as two
    quotes, so that it differs from an empty row. *)
Definition csv_writerow (fields : list Json) : string :=
  match map csv_cell fields with
  | [EmptyString] => dq ++ dq ++ crlf
  | cells => String.concat "," (map csv_field cells) ++ crlf
  end.

(** ** [app.py]: the three exports (lines 124-248) *)

(** A verdict as the dict [judge_debate] returns. *)
Definition sheet_json (s : ScoreSheet) : Json :=
  JObj (app (combine score_keys (sheet_values s)) [("total", JInt (total s))]).

Definition verdict_json (v : Verdict) : Json :=
  JObj [("judge_ai", JStr (v_judge_ai v));
        ("scores", JObj [("pro", sheet_json (v_pro v)); ("con", sheet_json (v_con v))]);
        ("commentary", v_commentary v); ("verdict", v_verdict v)].

(** One entry of [debate_log] as the dict [run_debate] appends. *)
Definition turn_json (t : Turn) : Json :=
  JObj [("round", JInt (round t)); ("pro_ai", JStr (pro_ai t));
        ("pro_response", JStr (pro_response t)); ("con_ai", JStr (con_ai t));
        ("con_response", JStr (con_response t))].

(** The rows of [create_csv_export]; [now] is the formatted timestamp. *)
Definition csv_judge_rows (v : Verdict) : list (list Json) :=
  let p := v_pro v in
  let c := v_con v in
  [[]; [JStr "JUDGE SCORING"]; [JStr "Judge AI"; JStr (v_judge_ai v)]; [];
   [JStr "Category"; JStr "PRO Score"; JStr "CON Score"];
   [JStr "Argument Strength"; argument_strength p; argument_strength c];
   [JStr "Evidence Quality"; evidence_quality p; evidence_quality c];
   [JStr "Counterpoint Effectiveness"; counterpoint_effectiveness p; counterpoint_effectiveness c];
   [JStr "Good Faith/Concessions"; good_faith p; good_faith c];
   [JStr "Factual Accuracy"; factual_accuracy p; factual_accuracy c];
   [JStr "Rhetorical Skill"; rhetorical_skill p; rhetorical_skill c];
   [];
   [JStr "Total Score"; JInt (total p); JInt (total c)];
   [];
   [JStr "Judge's Commentary"]; [v_commentary v]; [];
   [JStr "Verdict"]; [v_verdict v]].

Definition csv_turn_rows (entry : Turn) : list (list Json) :=
  [[JInt (round entry); JStr "PRO"; JStr (pro_ai entry); JStr (pro_response entry)];
   [JInt (round entry); JStr "CON"; JStr (con_ai entry); JStr (con_response entry)]].

Definition csv_export_rows (now : string) (debate_log : list Turn) (topic mode : string)
    (judging : option JudgeOut) : list (list Json) :=
  app [[JStr "AI Debate Arena Export"]; [JStr "Topic"; JStr topic]; [JStr "Mode"; JStr mode];
       [JStr "Timestamp"; JStr now]; [];
       [JStr "Round"; JStr "Position"; JStr "AI System"; JStr "Argument"]]
  (app (flat_map csv_turn_rows debate_log)
       (match judging with Some (JVerdict v) => csv_judge_rows v | _ => [] end)).

(** [create_csv_export]; [summary] is not used. *)
Definition create_csv_export (now : string) (debate_log : list Turn) (topic mode : string)
    (summary : option (list (string * Json))) (judging : option JudgeOut) : string :=
  String.concat "" (map csv_writerow (csv_export_rows now debate_log topic mode judging)).

(** [json.dumps(obj, indent=2)] with [ensure_ascii=True]. *)
Fixpoint json_escape (s : string) : string :=
  match s with
  | EmptyString => EmptyString
  | String c s' =>
      let n := nat_of_ascii c in
      (if (n =? 92)%nat then "\\"
       else if (n =? 34)%nat then "\" ++ dq
       else if (n =? 8)%nat then "\b"
       else if (n =? 12)%nat then "\f"
       else if (n =? 10)%nat then "\n"
       else if (n =? 13)%nat then "\r"
       else if (n =? 9)%nat then "\t"
       else if (32 <=? n)%nat && (n <=? 126)%nat then String c EmptyString
       else "\u00" ++ hex2 n) ++ json_escape s'
  end.

Definition json_quote (s : string) : string := dq ++ json_escape s ++ dq.

Definition json_indent (level : nat) : string := nl ++ str_repeat " " (2 * level).

Fixpoint json_dumps_at (level : nat) (x : Json) : string :=
  match x with
  | JNull => "null"
  | JBool b => if b then "true" else "false"
  | JInt n => str_Z n
  | JStr s => json_quote s
  | JArr [] => "[]"
  | JArr xs =>
      "[" ++ json_indent (S level) ++
      String.concat ("," ++ json_indent (S level)) (map (json_dumps_at (S level)) xs) ++
      json_indent level ++ "]"
  | JObj [] => "{}"
  | JObj kvs =>
      "{" ++ json_indent (S level) ++
      String.concat ("," ++ json_indent (S level))
        (map (fun '(k, v) => json_quote k ++ ": " ++ json_dumps_at (S level) v) kvs) ++
      json_indent level ++ "}"
  end.

Definition json_dumps (x : Json) : string := json_dumps_at 0 x.

(** [create_json_export] *)
Definition create_json_export (now : string) (debate_log : list Turn) (topic mode : string)
    (summary : option (list (string * Json))) (judging : option JudgeOut) : string :=
  json_dumps (JObj (app
    [("topic", JStr topic); ("mode", JStr mode); ("timestamp", JStr now);
     ("rounds", JInt (Z.of_nat (length debate_log)));
     ("debate", JArr (map turn_json debate_log));
     ("summary", match summary with Some kvs => JObj kvs | None => JNull end)]
    (match judging with Some (JVerdict v) => [("judging", verdict_json v)] | _ => [] end))).

Definition eq80 : string := str_repeat "=" 80.
Definition dash80 : string := str_repeat "-" 80.

Definition txt_header (now : string) (debate_log : list Turn) (topic mode : string) : list Json :=
  map JStr [eq80; "AI DEBATE ARENA - DEBATE TRANSCRIPT"; eq80; "Topic: " ++ topic;
            "Mode: " ++ mode; "Date: " ++ now;
            "Total Rounds: " ++ str_Z (Z.of_nat (length debate_log)); eq80; ""].

Definition txt_round (entry : Turn) : list Json :=
  map JStr ["ROUND " ++ str_Z (round entry); dash80;
            "PRO (" ++ pro_ai entry ++ "):"; pro_response entry; "";
            "CON (" ++ con_ai entry ++ "):"; con_response entry; "";
            eq80; ""].

(** [if summary:] (a non-empty dict) and [summary.get('summary', ...)]. *)
Definition txt_summary (summary : option (list (string * Json))) : list Json :=
  match summary with
  | Some ((_ :: _) as kvs) =>
      [JStr "DEBATE SUMMARY"; JStr eq80;
       match assoc "summary" kvs with Some x => x | None => JStr "No summary available" end;
       JStr ""; JStr eq80; JStr ""]
  | _ => []
  end.

(** [f"{label:<30} {p:<10} {c:<10}"] *)
Definition txt_score_row (label : string) (p c : Json) : Py Json :=
  a <- py_format_left 10 p;;
  b <- py_format_left 10 c;;
  inr (JStr (pad_right 30 label ++ " " ++ a ++ " " ++ b)).

Definition txt_judge (v : Verdict) : Py (list Json) :=
  let p := v_pro v in
  let c := v_con v in
  r1 <- txt_score_row "Argument Strength" (argument_strength p) (argument_strength c);;
  r2 <- txt_score_row "Evidence Quality" (evidence_quality p) (evidence_quality c);;
  r3 <- txt_score_row "Counterpoint Effectiveness"
          (counterpoint_effectiveness p) (counterpoint_effectiveness c);;
  r4 <- txt_score_row "Good Faith/Concessions" (good_faith p) (good_faith c);;
  r5 <- txt_score_row "Factual Accuracy" (factual_accuracy p) (factual_accuracy c);;
  r6 <- txt_score_row "Rhetorical Skill" (rhetorical_skill p) (rhetorical_skill c);;
  rt <- txt_score_row "TOTAL" (JInt (total p)) (JInt (total c));;
  inr ([JStr "JUDGE SCORING"; JStr eq80; JStr ("Judge: " ++ v_judge_ai v); JStr "";
        JStr "SCORES (0-10 scale):"; JStr dash80;
        JStr (pad_right 30 "Category" ++ " " ++ pad_right 10 "PRO" ++ " " ++ pad_right 10 "CON");
        JStr dash80; r1; r2; r3; r4; r5; r6; JStr dash80; rt; JStr "";
        JStr "JUDGE'S COMMENTARY:"; JStr dash80; v_commentary v; JStr "";
        JStr "VERDICT:"; JStr dash80; v_verdict v; JStr ""; JStr eq80]).

(** [create_txt_export]: a score [format] fails while the lines are being
    collected, a non-[str] line when they are joined. *)
Definition create_txt_export (now : string) (debate_log : list Turn) (topic mode : string)
    (summary : option (list (string * Json))) (judging : option JudgeOut) : Py string :=
  judge_lines <- match judging with Some (JVerdict v) => txt_judge v | _ => inr [] end;;
  py_join_nl (app (txt_header now debate_log topic mode)
             (app (flat_map txt_round debate_log)
             (app (txt_summary summary) judge_lines))).

(** ** [app.py]: the run (lines 250-380) *)

(** [required_keys], in insertion order. *)
Definition required_keys : list (string * string) :=
  [("claude", "ANTHROPIC_API_KEY"); ("gpt", "OPENAI_API_KEY");
   ("gemini", "GOOGLE_API_KEY"); ("deepseek", "DEEPSEEK_API_KEY");
   ("mistral", "MISTRAL_API_KEY"); ("cohere", "COHERE_API_KEY");
   ("command", "COHERE_API_KEY"); ("groq", "GROQ_API_KEY");
   ("llama", "GROQ_API_KEY"); ("ai21", "AI21_API_KEY"); ("jamba", "AI21_API_KEY")].

(** [bool(os.getenv(name))]: unset and empty both fail. *)
Definition env_set (v : option string) : bool :=
  match v with Some s => negb (String.eqb s "") | None => false end.

(** [has_errors] *)
Definition has_errors (debate_log : list Turn) : bool :=
  existsb (fun entry => str_in "[ERROR:" (pro_response entry) ||
                        str_in "[ERROR:" (con_response entry)) debate_log.

(** [enable_judging and judge_ai]; [judge_ai] is [None] unless judging is
    enabled. *)
Definition judge_selected (enable_judging : bool) (judge_ai : option string) : option string :=
  match judge_ai with
  | Some j => if enable_judging && negb (String.eqb j "") then Some j else None
  | None => None
  end.

(** The outcome of one click on the run button. *)
Inductive AppRun :=
| AppStopped (missing : list string)
| AppCrashed (e : PyExc)
| AppDone (debate_log : list Turn) (summary : list (string * Json))
    (judging : option JudgeOut) (csv_data json_data txt_data : string)
    (audio : option AudioOut).

Section App.

Variable vendor : list Call -> Call -> VendorOutcome.
Variable key_present : Provider -> bool.
Variable json_loads : string -> Py Json.
Variable tts_installed : bool.
Variable tts : list SynthCall -> SynthCall -> TtsOutcome.
(** [os.getenv] *)
Variable getenv : string -> option string.
(** [datetime.now().strftime("%Y-%m-%d %H:%M:%S")] *)
Variable now : string.

(** The inner loop over [required_keys.items()] for one AI. *)
Definition keys_missing_for (ai : string) : list string :=
  flat_map (fun '(prefix, key_name) =>
              if startswith ai prefix && negb (env_set (getenv key_name))
              then [key_name] else [])
           required_keys.

(** [missing_keys] *)
Definition missing_keys (ai_pro ai_con : string) (enable_judging : bool)
    (judge_ai : option string) (enable_audio : bool) : list string :=
  app (keys_missing_for ai_pro)
  (app (keys_missing_for ai_con)
  (app (match judge_selected enable_judging judge_ai with
        | Some j => keys_missing_for j
        | None => []
        end)
       (if enable_audio && negb (env_set (getenv "ELEVENLABS_API_KEY"))
        then ["ELEVENLABS_API_KEY"] else []))).

(** The click handler, up to the audio step (what follows only displays);
    [w] is the vendors' state and [th] the speech requests made so far.  The
    outer [except] is reached only by the TXT export. *)
Definition app_run (topic ai_pro ai_con : string) (rounds word_limit : Z) (mode : string)
    (enable_judging : bool) (judge_ai : option string) (enable_audio : bool)
    (w : World) (th : list SynthCall) : AppRun * World * list SynthCall :=
  match missing_keys ai_pro ai_con enable_judging judge_ai enable_audio with
  | (_ :: _) as m => (AppStopped m, w, th)
  | [] =>
      let (debate_log, w1) :=
        run_debate vendor key_present topic ai_pro ai_con rounds word_limit mode w in
      let errs := has_errors debate_log in
      let (summary, w2) := generate_summary vendor key_present topic debate_log mode w1 in
      let (judging, w3) :=
        match judge_selected enable_judging judge_ai with
        | Some j =>
            if negb errs then
              let (o, w') := judge_debate vendor key_present json_loads topic debate_log mode
                               j ai_pro ai_con w2 in
              (Some o, w')
            else (None, w2)
        | None => (None, w2)
        end in
      let csv_data := create_csv_export now debate_log topic mode (Some summary) judging in
      let json_data := create_json_export now debate_log topic mode (Some summary) judging in
      match create_txt_export now debate_log topic mode (Some summary) judging with
      | inl e => (AppCrashed e, w3, th)
      | inr txt_data =>
          if enable_audio && negb errs then
            let (a, th') := generate_audio tts_installed (getenv "GOOGLE_API_KEY") tts
                              topic debate_log mode (Some summary) judging ai_pro ai_con th in
            (AppDone debate_log summary judging csv_data json_data txt_data (Some a), w3, th')
          else (AppDone debate_log summary judging csv_data json_data txt_data None, w3, th)
      end
  end.

End App.

(** ** A [json.loads] for a subset of JSON

    Objects, arrays, strings with the short escapes, integers, [true],
    [false] and [null], with the [json] module's error wording; [\u]
    escapes, fractions, exponents, [NaN] and [Infinity] are refused, so
    this loader stands for [json.loads] only on documents without them. *)
Module JsonSubset.

Definition dq_char : ascii := ascii_of_nat 34.
Definition bs_char : ascii := ascii_of_nat 92.

Definition is_ws (c : ascii) : bool :=
  Ascii.eqb c " "%char || Ascii.eqb c (ascii_of_nat 9) ||
  Ascii.eqb c (ascii_of_nat 10) || Ascii.eqb c (ascii_of_nat 13).

Definition is_digit (c : ascii) : bool :=
  (48 <=? nat_of_ascii c)%nat && (nat_of_ascii c <=? 57)%nat.

Fixpoint skip_ws (pos : nat) (s : list ascii) : nat * list ascii :=
  match s with
  | c :: s' => if is_ws c then skip_ws (S pos) s' else (pos, s)
  | [] => (pos, [])
  end.

(** A parse error (message and offset), or a value with the offset and the
    input after it. *)
Definition PRes (A : Type) : Type := ((string * nat) + (A * nat * list ascii))%type.

Definition escape_char (e : ascii) : option ascii :=
  if Ascii.eqb e dq_char then Some dq_char
  else if Ascii.eqb e bs_char then Some bs_char
  else if Ascii.eqb e "/"%char then Some "/"%char
  else if Ascii.eqb e "b"%char then Some (ascii_of_nat 8)
  else if Ascii.eqb e "f"%char then Some (ascii_of_nat 12)
  else if Ascii.eqb e "n"%char then Some (ascii_of_nat 10)
  else if Ascii.eqb e "r"%char then Some (ascii_of_nat 13)
  else if Ascii.eqb e "t"%char then Some (ascii_of_nat 9)
  else None.

(** The rest of a string literal whose opening quote is at [start]. *)
Fixpoint scan_string (start pos : nat) (s : list ascii) (acc : list ascii) : PRes string :=
  match s with
  | [] => inl ("Unterminated string starting at", start)
  | c :: s' =>
      if Ascii.eqb c dq_char then inr (string_of_list_ascii (rev acc), S pos, s')
      else if Ascii.eqb c bs_char then
        match s' with
        | e :: s'' =>
            match escape_char e with
            | Some c' => scan_string start (S (S pos)) s'' (c' :: acc)
            | None => inl ("Invalid \escape", pos)
            end
        | [] => inl ("Unterminated string starting at", start)
        end
      else if (nat_of_ascii c <? 32)%nat then inl ("Invalid control character at", pos)
      else scan_string start (S pos) s' (c :: acc)
  end.

Fixpoint scan_digits (s : list ascii) (acc : Z) (n : nat) : Z * nat * list ascii :=
  match s with
  | c :: s' =>
      if is_digit c then scan_digits s' (acc * 10 + Z.of_nat (nat_of_ascii c - 48))%Z (S n)
      else (acc, n, s)
  | [] => (acc, n, [])
  end.

Definition number_end (neg : bool) (n : Z) (pos : nat) (rest : list ascii) : PRes Json :=
  match rest with
  | c :: _ =>
      if Ascii.eqb c "."%char || Ascii.eqb c "e"%char || Ascii.eqb c "E"%char
      then inl ("Number with a fraction or exponent", pos)
      else inr (JInt (if neg then - n else n)%Z, pos, rest)
  | [] => inr (JInt (if neg then - n else n)%Z, pos, rest)
  end.

Definition scan_number (pos : nat) (s : list ascii) : PRes Json :=
  let '(neg, p1, s1) :=
    match s with
    | c :: s' => if Ascii.eqb c "-"%char then (true, S pos, s') else (false, pos, s)
    | [] => (false, pos, s)
    end in
  match s1 with
  | c :: s2 =>
      if Ascii.eqb c "0"%char then number_end neg 0 (S p1) s2
      else if is_digit c then
        let '(n, k, s3) := scan_digits s1 0 0 in number_end neg n (p1 + k) s3
      else inl ("Expecting value", pos)
  | [] => inl ("Expecting value", pos)
  end.

Fixpoint strip_word (w : list ascii) (s : list ascii) : option (list ascii) :=
  match w, s with
  | [], _ => Some s
  | a :: w', c :: s' => if Ascii.eqb a c then strip_word w' s' else None
  | _ :: _, [] => None
  end.

(** A later value under a repeated key replaces the earlier one in place. *)
Fixpoint dict_set (k : string) (v : Json) (kvs : list (string * Json)) : list (string * Json) :=
  match kvs with
  | [] => [(k, v)]
  | (k', v') :: kvs' => if String.eqb k k' then (k, v) :: kvs' else (k', v') :: dict_set k v kvs'
  end.

Fixpoint parse_value (fuel pos : nat) (s : list ascii) {struct fuel} : PRes Json :=
  match fuel with
  | O => inl ("Maximum nesting depth", pos)
  | S f =>
    match s with
    | [] => inl ("Expecting value", pos)
    | c :: s' =>
        if Ascii.eqb c "{"%char then parse_members f (S pos) s' [] true
        else if Ascii.eqb c "["%char then parse_elements f (S pos) s' [] true
        else if Ascii.eqb c dq_char then
          match scan_string pos (S pos) s' [] with
          | inl e => inl e
          | inr (str, p, r) => inr (JStr str, p, r)
          end
        else match strip_word (list_ascii_of_string "true") s with
        | Some r => inr (JBool true, pos + 4, r)
        | None => match strip_word (list_ascii_of_string "false") s with
        | Some r => inr (JBool false, pos + 5, r)
        | None => match strip_word (list_ascii_of_string "null") s with
        | Some r => inr (JNull, pos + 4, r)
        | None => scan_number pos s
        end end end
    end
  end
with parse_members (fuel pos : nat) (s : list ascii) (acc : list (string * Json))
    (first : bool) {struct fuel} : PRes Json :=
  match fuel with
  | O => inl ("Maximum nesting depth", pos)
  | S f =>
    let (p1, s1) := skip_ws pos s in
    match s1 with
    | c :: s2 =>
        if Ascii.eqb c dq_char then
          match scan_string p1 (S p1) s2 [] with
          | inl e => inl e
          | inr (k, p2, s3) =>
              let (p3, s4) := skip_ws p2 s3 in
              match s4 with
              | c' :: s5 =>
                  if Ascii.eqb c' ":"%char then
                    let (p4, s6) := skip_ws (S p3) s5 in
                    match parse_value f p4 s6 with
                    | inl e => inl e
                    | inr (v, p5, s7) =>
                        let acc' := dict_set k v acc in
                        let (p6, s8) := skip_ws p5 s7 in
                        match s8 with
                        | c'' :: s9 =>
                            if Ascii.eqb c'' ","%char then parse_members f (S p6) s9 acc' false
                            else if Ascii.eqb c'' "}"%char then inr (JObj acc', S p6, s9)
                            else inl ("Expecting ',' delimiter", p6)
                        | [] => inl ("Expecting ',' delimiter", p6)
                        end
                    end
                  else inl ("Expecting ':' delimiter", p3)
              | [] => inl ("Expecting ':' delimiter", p3)
              end
          end
        else if Ascii.eqb c "}"%char && first then inr (JObj [], S p1, s2)
        else inl ("Expecting property name enclosed in double quotes", p1)
    | [] => inl ("Expecting property name enclosed in double quotes", p1)
    end
  end
with parse_elements (fuel pos : nat) (s : list ascii) (acc : list Json)
    (first : bool) {struct fuel} : PRes Json :=
  match fuel with
  | O => inl ("Maximum nesting depth", pos)
  | S f =>
    let (p1, s1) := skip_ws pos s in
    match s1 with
    | c :: s2 =>
        if Ascii.eqb c "]"%char && first then inr (JArr [], S p1, s2)
        else
          match parse_value f p1 s1 with
          | inl e => inl e
          | inr (v, p2, s3) =>
              let (p3, s4) := skip_ws p2 s3 in
              match s4 with
              | c' :: s5 =>
                  if Ascii.eqb c' ","%char then parse_elements f (S p3) s5 (acc ++ [v]) false
                  else if Ascii.eqb c' "]"%char then inr (JArr (acc ++ [v]), S p3, s5)
                  else inl ("Expecting ',' delimiter", p3)
              | [] => inl ("Expecting ',' delimiter", p3)
              end
          end
    | [] => inl ("Expecting value", p1)
    end
  end.

(** Characters after the last newline of [pre]. *)
Fixpoint column_of (pre : list ascii) (col : nat) : nat :=
  match pre with
  | [] => col
  | c :: pre' => column_of pre' (if Ascii.eqb c (ascii_of_nat 10) then 0 else S col)
  end.

(** [JSONDecodeError]'s text: message, line, column and offset. *)
Definition decode_msg (doc : list ascii) (msg : string) (pos : nat) : string :=
  let pre := firstn pos doc in
  let lineno := S (count_occ Ascii.ascii_dec pre (ascii_of_nat 10)) in
  msg ++ ": line " ++ str_Z (Z.of_nat lineno) ++ " column " ++
  str_Z (Z.of_nat (S (column_of pre 0))) ++ " (char " ++ str_Z (Z.of_nat pos) ++ ")".

Definition loads_subset (doc : string) : Py Json :=
  let s := list_ascii_of_string doc in
  let (p0, s0) := skip_ws 0 s in
  match parse_value (2 * length s + 2) p0 s0 with
  | inl (msg, pos) => inl (JSONDecodeError (decode_msg s msg pos))
  | inr (v, p, r) =>
      let (p', r') := skip_ws p r in
      match r' with
      | [] => inr v
      | _ => inl (JSONDecodeError (decode_msg s "Extra data" p'))
      end
  end.

End JsonSubset.

(** ** Specification-side vocabulary *)

(** The routing table the [if/elif] chain of [get_response] encodes, in order. *)
Definition prefix_table : list (string * Provider) :=
  [("claude", PClaude); ("gpt", POpenAI); ("gemini", PGemini);
   ("deepseek", PDeepSeek); ("mistral", PMistral);
   ("cohere", PCohere); ("command", PCohere);
   ("groq", PGroq); ("llama", PGroq);
   ("ai21", PAI21); ("jamba", PAI21)].

Fixpoint table_lookup (ai_system : string) (tbl : list (string * Provider))
    : option Provider :=
  match tbl with
  | [] => None
  | (pre, p) :: tbl' =>
      if startswith ai_system pre then Some p else table_lookup ai_system tbl'
  end.

(** [needle] occurs verbatim in [hay]. *)
Definition contains (needle hay : string) : Prop :=
  exists a b, hay = a ++ needle ++ b.

(** The [get_response] invocations a debate log implies: the two opening
    prompts, then for each later Turn the two rebuttal prompts quoting the
    previous Turn. *)
Fixpoint rebuttal_asks (topic ai_pro ai_con : string) (word_limit : Z)
    (suffix : string) (prev : Turn) (log : list Turn) : list Ask :=
  match log with
  | [] => []
  | t :: log' =>
      mkAsk ai_pro (rebuttal_prompt (round t) "PRO" topic (con_response prev) word_limit suffix) word_limit ::
      mkAsk ai_con (rebuttal_prompt (round t) "CON" topic (pro_response prev) word_limit suffix) word_limit ::
      rebuttal_asks topic ai_pro ai_con word_limit suffix t log'
  end.

Definition debate_asks (topic ai_pro ai_con : string) (word_limit : Z)
    (suffix : string) (log : list Turn) : list Ask :=
  match log with
  | [] => []
  | t1 :: log' =>
      mkAsk ai_pro (opening_prompt pro_opening_position topic word_limit suffix) word_limit ::
      mkAsk ai_con (opening_prompt con_opening_position topic word_limit suffix) word_limit ::
      rebuttal_asks topic ai_pro ai_con word_limit suffix t1 log'
  end.

Scheme Equality for Provider.

(** Every two prefixes of the table that can both match one identifier (one
    is a prefix of the other) name the same provider. *)
Definition table_coherent (tbl : list (string * Provider)) : bool :=
  forallb (fun e1 => forallb (fun e2 =>
    implb (String.prefix (fst e1) (fst e2) || String.prefix (fst e2) (fst e1))
          (Provider_beq (snd e1) (snd e2))) tbl) tbl.

(** The text an adapter hands back for a vendor outcome (see [adapter]). *)
Definition outcome_text (p : Provider) (o : VendorOutcome) : string :=
  match o with VOk text => text | VFail d => adapter_error p d end.

(** The side whose adapter call is considered. *)
Inductive Side := SPro | SCon.

(** [v], except that the call made when [j] calls precede it raises [d]. *)
Definition fail_at (j : nat) (d : string) (v : list Call -> Call -> VendorOutcome)
    (h : list Call) (c : Call) : VendorOutcome :=
  if Nat.eqb (length h) j then VFail d else v h c.

(** Two vendors behave alike on every call preceded by fewer than [n] calls. *)
Definition agree_below (n : nat) (v v' : list Call -> Call -> VendorOutcome) : Prop :=
  forall h c, (length h < n)%nat -> v h c = v' h c.

(** Whether [c] occurs in [s]. *)
Definition has_char (c : ascii) (s : string) : bool :=
  existsb (Ascii.eqb c) (list_ascii_of_string s).

(** The first balanced brace-delimited region of a text: from its first
    ['{'] to the ['}'] that closes it. *)
Fixpoint close_region (depth : nat) (s : string) : option string :=
  match s with
  | EmptyString => None
  | String c s' =>
      if Ascii.eqb c "{"%char then option_map (String c) (close_region (S depth) s')
      else if Ascii.eqb c "}"%char then
        match depth with
        | O | S O => Some (String c EmptyString)
        | S d => option_map (String c) (close_region d s')
        end
      else option_map (String c) (close_region depth s')
  end.

Fixpoint first_balanced (s : string) : option string :=
  match s with
  | EmptyString => None
  | String c s' =>
      if Ascii.eqb c "{"%char then option_map (String c) (close_region 1 s')
      else first_balanced s'
  end.

Definition is_num (x : Json) : bool :=
  match num_val x with Some _ => true | None => false end.

(** The sum [sum] computes once every item is a number. *)
Definition zsum (xs : list Json) : Z :=
  fold_right (fun x acc => match num_val x with Some n => n + acc | None => acc end)%Z 0%Z xs.





Definition missing_field_error (k : string) : string :=
  "[ERROR: Missing required field in judge response - " ++ sq ++ k ++ sq ++ "]".

Definition parse_error (m resp : string) : string :=
  "[ERROR: Could not parse judge response as JSON - " ++ m ++
  ". Response was: " ++ substring 0 200 resp ++ "...]".

(** The credential [app.py] asks for, for the provider an identifier routes to. *)
Definition provider_key_name (p : Provider) : string :=
  match p with
  | PClaude => "ANTHROPIC_API_KEY" | POpenAI => "OPENAI_API_KEY"
  | PGemini => "GOOGLE_API_KEY" | PDeepSeek => "DEEPSEEK_API_KEY"
  | PMistral => "MISTRAL_API_KEY" | PCohere => "COHERE_API_KEY"
  | PGroq => "GROQ_API_KEY" | PAI21 => "AI21_API_KEY"
  end.

(** Reading CSV text by RFC 4180: every row ends in CRLF; a field is bare
    (no comma, quote, CR or LF) or quoted, a quote inside a quoted field
    being written twice; an empty line is a row without fields.  The
    characters of the field being read are kept in reverse. *)
Inductive CsvState :=
| RowStart
| FieldStart
| Bare (acc : list ascii)
| Quoted (acc : list ascii)
| QuoteSeen (acc : list ascii).

Definition csv_text (acc : list ascii) : string := string_of_list_ascii (rev acc).

(** The fields of the row once the current field ends. *)
Definition close_field (st : CsvState) (fields : list string) : list string :=
  match st with
  | RowStart | FieldStart => "" :: fields
  | Bare acc | Quoted acc | QuoteSeen acc => csv_text acc :: fields
  end.

Fixpoint csv_lex (st : CsvState) (fields : list string) (s : list ascii)
    : option (list (list string)) :=
  match s with
  | [] => match st with RowStart => Some [] | _ => None end
  | c :: s' =>
      match st with
      | Quoted acc =>
          if Ascii.eqb c (ascii_of_nat 34) then csv_lex (QuoteSeen acc) fields s'
          else csv_lex (Quoted (c :: acc)) fields s'
      | _ =>
          if Ascii.eqb c cr then
            match s' with
            | c2 :: s'' =>
                if Ascii.eqb c2 lf then
                  option_map (cons (rev (match st with
                                         | RowStart => []
                                         | _ => close_field st fields
                                         end)))
                             (csv_lex RowStart [] s'')
                else None
            | [] => None
            end
          else if Ascii.eqb c ","%char then csv_lex FieldStart (close_field st fields) s'
          else if Ascii.eqb c (ascii_of_nat 34) then
            match st with
            | RowStart | FieldStart => csv_lex (Quoted []) fields s'
            | QuoteSeen acc => csv_lex (Quoted (c :: acc)) fields s'
            | _ => None
            end
          else if Ascii.eqb c lf then None
          else
            match st with
            | RowStart | FieldStart => csv_lex (Bare [c]) fields s'
            | Bare acc => csv_lex (Bare (c :: acc)) fields s'
            | _ => None
            end
      end
  end.

Definition csv_parse (text : string) : option (list (list string)) :=
  csv_lex RowStart [] (list_ascii_of_string text).

(** The values [format(x, '<10')] accepts. *)
Definition formattable (x : Json) : bool :=
  match x with JInt _ | JBool _ | JStr _ => true | _ => false end.

Definition is_jstr (x : Json) : bool :=
  match x with JStr _ => true | _ => false end.

(** Whether [create_txt_export] gets through a judging result. *)
Definition txt_judging_ok (judging : option JudgeOut) : bool :=
  match judging with
  | Some (JVerdict v) =>
      forallb formattable (app (sheet_values (v_pro v)) (sheet_values (v_con v))) &&
      is_jstr (v_commentary v) && is_jstr (v_verdict v)
  | _ => true
  end.

(** The characters [json.dumps(..., indent=2)] may write with
    [ensure_ascii]: a newline or printable ASCII. *)
Definition json_char_ok (c : ascii) : bool :=
  let n := nat_of_ascii c in ((n =? 10) || ((32 <=? n) && (n <=? 126)))%nat.

Definition json_text_ok (s : string) : bool :=
  forallb json_char_ok (list_ascii_of_string s).

(** ** Test doubles *)

(** A vendor that always answers, with the number of earlier calls and the
    length of the prompt: its answers depend on the prompt, as an LLM's do. *)
Definition len_vendor (h : list Call) (c : Call) : VendorOutcome :=
  VOk ("ok " ++ str_Z (Z.of_nat (length h)) ++ " " ++
       str_Z (Z.of_nat (String.length (call_prompt c)))).

Definition all_keys (p : Provider) : bool := true.

(** Judge answers written as JSON text. *)
Definition json_field (k v : string) : string := dquote k ++ ": " ++ v.

Definition json_object (fields : list string) : string :=
  "{" ++ String.concat ", " fields ++ "}".

Definition scores_text (vals : list string) : string :=
  json_object (map (fun kv => json_field (fst kv) (snd kv)) (combine score_keys vals)).

Definition sample_payload (pro_scores con_scores : string) : string :=
  json_object [json_field "pro_scores" pro_scores; json_field "con_scores" con_scores;
               json_field "commentary" (dquote "Both sides were close.");
               json_field "verdict" (dquote "PRO was stronger.")].

Definition six_scores : string := scores_text ["7"; "6"; "8"; "9"; "7"; "8"].
Definition other_scores : string := scores_text ["5"; "5"; "6"; "7"; "6"; "5"].

(** An answer whose JSON is followed by prose that itself holds braces. *)
Definition trailing_brace_response : string :=
  "Here is my evaluation: " ++ sample_payload six_scores other_scores ++
  " All scores use the scale {0-10}.".


Definition six_kvs (vals : list Z) : list (string * Json) := combine score_keys (map JInt vals).

Definition sample_data : Json :=
  JObj [("pro_scores", JObj (six_kvs [7; 6; 8; 9; 7; 8]%Z));
        ("con_scores", JObj (six_kvs [5; 5; 6; 7; 6; 5]%Z));
        ("commentary", JStr "Both sides were close.");
        ("verdict", JStr "PRO was stronger.")].

Definition sample_verdict : Verdict :=
  mkVerdict "claude"
    (mkSheet (JInt 7) (JInt 6) (JInt 8) (JInt 9) (JInt 7) (JInt 8) 45)
    (mkSheet (JInt 5) (JInt 5) (JInt 6) (JInt 7) (JInt 6) (JInt 5) 34)
    (JStr "Both sides were close.") (JStr "PRO was stronger.").

Definition sample_log : list Turn :=
  [mkTurn 1 "claude" "Opening for." "gpt" "Opening against.";
   mkTurn 2 "claude" "Rebuttal for." "gpt" "Rebuttal against."].

(** A speech service that answers every request with the same short MP3. *)
Definition mp3_tts (h : list SynthCall) (c : SynthCall) : TtsOutcome :=
  TtsAudio [x49; x44; x33].

(** A narrated debate of two rounds with a verdict. *)
Definition sample_audio_script : string :=
  match py_join_nl (audio_script "X" sample_log "Adversarial" None
                      (Some (JVerdict sample_verdict)) "claude" "gpt") with
  | inr full_script => full_script
  | inl _ => ""
  end.

Definition sample_audio_run : AudioOut * list SynthCall :=
  generate_audio true (Some "k") mp3_tts "X" sample_log "Adversarial" None
    (Some (JVerdict sample_verdict)) "claude" "gpt" [].

(** A judge answer whose PRO evidence score is the string ["high"]. *)
Definition quoted_score_payload : string :=
  sample_payload (scores_text ["7"; dquote "high"; "8"; "9"; "7"; "8"]) other_scores.

Definition quoted_score_data : Json :=
  match parse_judge_response JsonSubset.loads_subset quoted_score_payload with
  | inr d => d
  | inl _ => JNull
  end.

(** A verdict whose commentary came back as JSON [null]. *)
Definition null_commentary_verdict : Verdict :=
  mkVerdict "claude"
    (mkSheet (JInt 7) (JInt 6) (JInt 8) (JInt 9) (JInt 7) (JInt 8) 45)
    (mkSheet (JInt 5) (JInt 5) (JInt 6) (JInt 7) (JInt 6) (JInt 5) 34)
    JNull (JStr "PRO was stronger.").

Definition sample_now : string := "2025-01-01 12:00:00".

Definition sample_txt : string :=
  match create_txt_export sample_now sample_log "X" "Adversarial" (Some [("summary", JStr "S")])
          (Some (JVerdict sample_verdict)) with
  | inr t => t
  | inl _ => ""
  end.

(** An environment where every variable is set. *)
Definition env_all (k : string) : option string := Some "key".

(** * Properties *)

(** ** String and list facts *)

Lemma sapp_assoc (a b c : string) : (a ++ b) ++ c = a ++ b ++ c.
Proof. induction a as [|x a IH]; simpl; [reflexivity | now rewrite IH]. Qed.

Lemma sapp_nil_r (a : string) : a ++ "" = a.
Proof. induction a as [|x a IH]; simpl; [reflexivity | now rewrite IH]. Qed.

Lemma sapp_length (a b : string) :
  String.length (a ++ b) = (String.length a + String.length b)%nat.
Proof. induction a as [|x a IH]; simpl; [reflexivity | now rewrite IH]. Qed.

(** The part of [p] before a known suffix [s] is determined by [p]. *)
Lemma strip_suffix (p base s : string) :
  p = base ++ s -> base = substring 0 (String.length p - String.length s) p.
Proof.
  intros ->. rewrite sapp_length.
  replace (String.length base + String.length s - String.length s)%nat
    with (String.length base) by lia.
  induction base as [|x base IH]; simpl; [destruct s; reflexivity | now rewrite <- IH].
Qed.

Lemma prefix_compat (a b s : string) :
  String.prefix a s = true -> String.prefix b s = true ->
  String.prefix a b = true \/ String.prefix b a = true.
Proof.
  revert a b. induction s as [|c s IH]; intros a b Ha Hb.
  - destruct a; [left; destruct b; reflexivity | discriminate].
  - destruct a as [|x a]; [left; destruct b; reflexivity|]. destruct b as [|y b]; [now right|].
    simpl in Ha, Hb. destruct (ascii_dec x c); [|discriminate].
    destruct (ascii_dec y c); [|discriminate]. subst. simpl.
    destruct (ascii_dec c c); [|congruence]. now apply IH.
Qed.

Lemma seq_as_range (s m : nat) :
  map Z.of_nat (seq s m) = map (fun i => Z.of_nat s + Z.of_nat i)%Z (seq 0 m).
Proof.
  revert s. induction m as [|m IH]; intros s; [reflexivity|].
  simpl. rewrite IH. f_equal; [lia|].
  rewrite <- seq_shift, map_map.
  apply map_ext. intros i. lia.
Qed.

Lemma rebuttal_prompt_split r pos topic opp wl sfx :
  rebuttal_prompt r pos topic opp wl sfx =
  ("You are in round " ++ str_Z r ++ " of a debate about: " ++ topic ++ nl ++
   "Your position: " ++ pos ++ nl ++ nl ++ "Your opponent's last argument:" ++ nl)
  ++ opp ++
  (nl ++ nl ++ "Respond to their argument in approximately " ++ str_Z wl ++
   " words. " ++ sfx).
Proof. unfold rebuttal_prompt. now repeat rewrite sapp_assoc. Qed.

Lemma rebuttal_prompt_suffix r pos topic opp wl sfx :
  rebuttal_prompt r pos topic opp wl sfx = rebuttal_prompt r pos topic opp wl "" ++ sfx.
Proof. unfold rebuttal_prompt. now repeat rewrite sapp_assoc. Qed.

Lemma opening_prompt_suffix pos topic wl sfx :
  opening_prompt pos topic wl sfx = opening_prompt pos topic wl "" ++ sfx.
Proof. unfold opening_prompt. now repeat rewrite sapp_assoc. Qed.

(** ** The orchestrator *)

Section Orchestrator.

Variable vendor : list Call -> Call -> VendorOutcome.
Variable key_present : Provider -> bool.

Lemma get_response_asks ai prompt mw w :
  asks (snd (get_response vendor key_present ai prompt mw w)) =
  (asks w ++ [mkAsk ai prompt mw])%list.
Proof.
  unfold get_response. destruct (route ai); [|reflexivity].
  destruct (adapter vendor key_present p ai prompt mw (net w)). reflexivity.
Qed.

Lemma debate_loop_spec topic ai_pro ai_con wl sfx rs :
  forall prev w log w',
  debate_loop vendor key_present topic ai_pro ai_con wl sfx rs
    (pro_response prev) (con_response prev) w = (log, w') ->
  map round log = rs /\
  Forall (fun t => pro_ai t = ai_pro /\ con_ai t = ai_con) log /\
  asks w' = (asks w ++ rebuttal_asks topic ai_pro ai_con wl sfx prev log)%list.
Proof.
  induction rs as [|r rs IH]; intros prev w log w' E; simpl in E.
  - inversion E; subst. simpl. rewrite app_nil_r. auto.
  - destruct (get_response vendor key_present ai_pro _ wl w) as [pr w1] eqn:E1.
    destruct (get_response vendor key_present ai_con _ wl w1) as [cr w2] eqn:E2.
    destruct (debate_loop vendor key_present topic ai_pro ai_con wl sfx rs pr cr w2)
      as [log' w3] eqn:E3.
    inversion E; subst; clear E.
    pose proof (get_response_asks ai_pro
      (rebuttal_prompt r "PRO" topic (con_response prev) wl sfx) wl w) as A1.
    pose proof (get_response_asks ai_con
      (rebuttal_prompt r "CON" topic (pro_response prev) wl sfx) wl w1) as A2.
    rewrite E1 in A1. rewrite E2 in A2. simpl in A1, A2.
    destruct (IH (mkTurn r ai_pro pr ai_con cr) w2 log' w' E3) as [R [F A3]].
    simpl. repeat split; auto.
    + now rewrite R.
    + rewrite A3, A2, A1. now repeat rewrite <- app_assoc.
Qed.

Lemma run_debate_spec topic ai_pro ai_con rounds wl mode w log w' :
  run_debate vendor key_present topic ai_pro ai_con rounds wl mode w = (log, w') ->
  exists t1 rest, log = t1 :: rest /\ round t1 = 1%Z /\
    map round rest = range_Z 2 (rounds + 1) /\
    Forall (fun t => pro_ai t = ai_pro /\ con_ai t = ai_con) log /\
    asks w' = (asks w ++ debate_asks topic ai_pro ai_con wl (instruction_suffix mode) log)%list.
Proof.
  unfold run_debate. intros E.
  set (sfx := instruction_suffix mode) in *.
  destruct (get_response vendor key_present ai_pro _ wl w) as [pr w1] eqn:E1.
  destruct (get_response vendor key_present ai_con _ wl w1) as [cr w2] eqn:E2.
  destruct (debate_loop vendor key_present topic ai_pro ai_con wl sfx _ pr cr w2)
    as [rest w3] eqn:E3.
  inversion E; subst; clear E.
  pose proof (get_response_asks ai_pro
    (opening_prompt pro_opening_position topic wl sfx) wl w) as A1.
  pose proof (get_response_asks ai_con
    (opening_prompt con_opening_position topic wl sfx) wl w1) as A2.
  rewrite E1 in A1. rewrite E2 in A2. simpl in A1, A2.
  destruct (debate_loop_spec topic ai_pro ai_con wl sfx _ (mkTurn 1 ai_pro pr ai_con cr)
              w2 rest w' E3) as [R [F A3]].
  exists (mkTurn 1 ai_pro pr ai_con cr), rest. repeat split; auto.
  simpl. rewrite A3, A2, A1. now repeat rewrite <- app_assoc.
Qed.

Lemma rebuttal_asks_nth topic ai_pro ai_con wl sfx :
  forall log prev j p t,
  nth_error (prev :: log) j = Some p -> nth_error log j = Some t ->
  nth_error (rebuttal_asks topic ai_pro ai_con wl sfx prev log) (2 * j) =
    Some (mkAsk ai_pro (rebuttal_prompt (round t) "PRO" topic (con_response p) wl sfx) wl) /\
  nth_error (rebuttal_asks topic ai_pro ai_con wl sfx prev log) (2 * j + 1) =
    Some (mkAsk ai_con (rebuttal_prompt (round t) "CON" topic (pro_response p) wl sfx) wl).
Proof.
  induction log as [|a log IH]; intros prev j p t H1 H2.
  - destruct j; discriminate.
  - destruct j as [|j].
    + simpl in H1, H2. inversion H1; inversion H2; subst. simpl. auto.
    + simpl in H1, H2.
      replace (2 * S j)%nat with (S (S (2 * j))) by lia.
      replace (S (S (2 * j)) + 1)%nat with (S (S (2 * j + 1))) by lia.
      simpl. exact (IH a j p t H1 H2).
Qed.

Lemma rebuttal_asks_suffix topic ai_pro ai_con wl sfx :
  forall log prev,
  map ask_prompt (rebuttal_asks topic ai_pro ai_con wl sfx prev log) =
  map (fun b => b ++ sfx) (map ask_prompt (rebuttal_asks topic ai_pro ai_con wl "" prev log)).
Proof.
  induction log as [|t log IH]; intros prev; [reflexivity|].
  simpl. rewrite IH, !(rebuttal_prompt_suffix _ _ _ _ _ sfx). reflexivity.
Qed.

Lemma debate_asks_skeleton topic ai_pro ai_con wl sfx log :
  map ask_prompt (debate_asks topic ai_pro ai_con wl sfx log) =
  map (fun b => b ++ sfx) (map ask_prompt (debate_asks topic ai_pro ai_con wl "" log)).
Proof.
  destruct log as [|t log]; [reflexivity|]. simpl.
  rewrite rebuttal_asks_suffix, !(opening_prompt_suffix _ _ _ sfx). reflexivity.
Qed.

Lemma debate_asks_suffix topic ai_pro ai_con wl sfx log :
  Forall (fun a => exists base, ask_prompt a = base ++ sfx)
    (debate_asks topic ai_pro ai_con wl sfx log).
Proof.
  apply Forall_forall. intros a Ha.
  assert (Hm : In (ask_prompt a) (map ask_prompt (debate_asks topic ai_pro ai_con wl sfx log)))
    by (now apply in_map).
  rewrite debate_asks_skeleton, map_map in Hm.
  apply in_map_iff in Hm. destruct Hm as (a' & Ha' & _). eauto.
Qed.

Lemma rebuttal_asks_length topic ai_pro ai_con wl sfx :
  forall log prev,
  length (rebuttal_asks topic ai_pro ai_con wl sfx prev log) = (2 * length log)%nat.
Proof.
  induction log as [|t log IH]; intros prev; [reflexivity|].
  simpl. rewrite IH. lia.
Qed.

Lemma run_debate_log_rounds topic ai_pro ai_con rounds wl mode w :
  (1 <= rounds)%Z ->
  let log := fst (run_debate vendor key_present topic ai_pro ai_con rounds wl mode w) in
  length log = Z.to_nat rounds /\
  map round log = map Z.of_nat (seq 1 (Z.to_nat rounds)) /\
  Forall (fun t => pro_ai t = ai_pro /\ con_ai t = ai_con) log.
Proof.
  intros Hr log. subst log.
  destruct (run_debate vendor key_present topic ai_pro ai_con rounds wl mode w)
    as [log w'] eqn:E. simpl.
  destruct (run_debate_spec _ _ _ _ _ _ _ _ _ E)
    as (t1 & rest & -> & R1 & R & F & _).
  assert (M : map round (t1 :: rest) = map Z.of_nat (seq 1 (Z.to_nat rounds))).
  { replace (Z.to_nat rounds) with (S (Z.to_nat (rounds + 1 - 2))) by lia.
    simpl. rewrite R1, R, seq_as_range. reflexivity. }
  repeat split; auto.
  now rewrite <- (length_map round), M, length_map, length_seq.
Qed.

End Orchestrator.

(** ** Routing *)

Lemma route_table ai : route ai = table_lookup ai prefix_table.
Proof.
  unfold route; simpl.
  repeat match goal with |- context [startswith ai ?x] => destruct (startswith ai x) end;
  reflexivity.
Qed.

Lemma table_lookup_none ai tbl :
  Forall (fun e => startswith ai (fst e) = false) tbl -> table_lookup ai tbl = None.
Proof.
  induction 1 as [|[pre p] tbl H _ IH]; simpl in *; [reflexivity|]. now rewrite H.
Qed.

Lemma table_lookup_first ai tbl pre p :
  In (pre, p) tbl -> startswith ai pre = true ->
  exists pre' q, In (pre', q) tbl /\ startswith ai pre' = true /\
                 table_lookup ai tbl = Some q.
Proof.
  induction tbl as [|[pre0 p0] tbl IH]; intros Hin Hs; [destruct Hin|].
  simpl. destruct (startswith ai pre0) eqn:E0.
  - exists pre0, p0. simpl. auto.
  - destruct Hin as [Heq|Hin]; [inversion Heq; subst; congruence|].
    destruct (IH Hin Hs) as (pre' & q & H1 & H2 & H3). exists pre', q. simpl. auto.
Qed.

Lemma table_coherent_spec tbl pre1 p1 pre2 p2 :
  table_coherent tbl = true -> In (pre1, p1) tbl -> In (pre2, p2) tbl ->
  String.prefix pre1 pre2 = true \/ String.prefix pre2 pre1 = true -> p1 = p2.
Proof.
  unfold table_coherent. rewrite forallb_forall. intros H H1 H2 Hp.
  specialize (H _ H1). rewrite forallb_forall in H. specialize (H _ H2).
  simpl in H. apply Bool.orb_true_iff in Hp. rewrite Hp in H. simpl in H.
  now apply internal_Provider_dec_bl.
Qed.

Lemma route_prefix ai pre p :
  In (pre, p) prefix_table -> startswith ai pre = true -> route ai = Some p.
Proof.
  intros Hin Hs. rewrite route_table.
  destruct (table_lookup_first ai prefix_table pre p Hin Hs) as (pre' & q & H1 & H2 & H3).
  rewrite H3. f_equal.
  apply (table_coherent_spec prefix_table pre' q pre p); auto.
  apply prefix_compat with (s := ai); assumption.
Qed.

Section Claims.

Variable vendor : list Call -> Call -> VendorOutcome.
Variable key_present : Provider -> bool.

(** C1: for every [rounds >= 1], [run_debate] returns exactly [rounds] Turns,
    whose [round] fields are 1, 2, ..., [rounds] in order, each carrying the
    PRO and CON model identifiers it was called with. *)
Theorem run_debate_rounds topic ai_pro ai_con rounds word_limit mode w
    (Hr : (1 <= rounds)%Z) :
  let log := fst (run_debate vendor key_present topic ai_pro ai_con rounds word_limit mode w) in
  length log = Z.to_nat rounds /\
  map round log = map Z.of_nat (seq 1 (Z.to_nat rounds)) /\
  Forall (fun t => pro_ai t = ai_pro /\ con_ai t = ai_con) log.
Proof.
  exact (run_debate_log_rounds vendor key_present topic ai_pro ai_con rounds word_limit mode w Hr).
Qed.

(** C2: in every run the two round-1 prompts are the opening prompts, built
    from the topic, the word limit and the mode alone (no opponent text); for
    every later round the PRO prompt contains verbatim the CON text recorded
    for the previous round and the CON prompt the PRO text recorded for it,
    whatever that text is (an adapter error string included). *)
Theorem run_debate_prompt_context topic ai_pro ai_con rounds word_limit mode w :
  let '(log, w') := run_debate vendor key_present topic ai_pro ai_con rounds word_limit mode w in
  exists new, asks w' = (asks w ++ new)%list /\
    firstn 2 new =
      [mkAsk ai_pro (opening_prompt pro_opening_position topic word_limit (instruction_suffix mode)) word_limit;
       mkAsk ai_con (opening_prompt con_opening_position topic word_limit (instruction_suffix mode)) word_limit] /\
    forall k prev t, nth_error log k = Some prev -> nth_error log (S k) = Some t ->
      exists ap ac, nth_error new (2 * S k) = Some ap /\
                    nth_error new (2 * S k + 1) = Some ac /\
                    ask_ai ap = ai_pro /\ ask_ai ac = ai_con /\
                    contains (con_response prev) (ask_prompt ap) /\
                    contains (pro_response prev) (ask_prompt ac).
Proof.
  destruct (run_debate vendor key_present topic ai_pro ai_con rounds word_limit mode w)
    as [log w'] eqn:E.
  destruct (run_debate_spec vendor key_present _ _ _ _ _ _ _ _ _ E)
    as (t1 & rest & -> & _ & _ & _ & A).
  eexists. split; [exact A|]. split; [reflexivity|].
  intros k prev t Hp Ht. simpl in Ht.
  destruct (rebuttal_asks_nth topic ai_pro ai_con word_limit (instruction_suffix mode)
              rest t1 k prev t Hp Ht) as [N1 N2].
  do 2 eexists. simpl debate_asks.
  replace (2 * S k)%nat with (S (S (2 * k))) by lia.
  replace (S (S (2 * k)) + 1)%nat with (S (S (2 * k + 1))) by lia.
  simpl nth_error. split; [exact N1|]. split; [exact N2|].
  simpl. repeat split.
  - eexists; eexists. apply rebuttal_prompt_split.
  - eexists; eexists. apply rebuttal_prompt_split.
Qed.

(** C7: an identifier matching none of the known prefixes gets the
    unsupported-model string, with no network call; an identifier matching a
    prefix of the table is handed to the one adapter that prefix maps to
    (several prefixes may map to one adapter, e.g. "groq" and "llama"). *)
Theorem get_response_dispatch ai prompt max_words w :
  (Forall (fun e => startswith ai (fst e) = false) prefix_table ->
   get_response vendor key_present ai prompt max_words w =
     (unsupported_msg ai, mkWorld (net w) (asks w ++ [mkAsk ai prompt max_words]))) /\
  (forall pre p, In (pre, p) prefix_table -> startswith ai pre = true ->
   get_response vendor key_present ai prompt max_words w =
     (fst (adapter vendor key_present p ai prompt max_words (net w)),
      mkWorld (snd (adapter vendor key_present p ai prompt max_words (net w)))
              (asks w ++ [mkAsk ai prompt max_words]))).
Proof.
  split.
  - intros H. unfold get_response. rewrite route_table, table_lookup_none by exact H.
    reflexivity.
  - intros pre p Hin Hs. unfold get_response.
    rewrite (route_prefix ai pre p Hin Hs).
    destruct (adapter vendor key_present p ai prompt max_words (net w)). reflexivity.
Qed.

(** C10: the mode is not validated: any mode other than the exact string
    "Truth-Seeking" runs exactly as "Adversarial" does and appends the
    adversarial instruction to every prompt; only "Truth-Seeking" selects the
    truth-seeking instruction. *)
Theorem run_debate_mode_unvalidated topic ai_pro ai_con rounds word_limit mode w
    (Hm : mode <> "Truth-Seeking") :
  run_debate vendor key_present topic ai_pro ai_con rounds word_limit mode w =
  run_debate vendor key_present topic ai_pro ai_con rounds word_limit "Adversarial" w /\
  Forall (fun a => exists base, ask_prompt a = base ++ adversarial_suffix)
    (skipn (length (asks w))
       (asks (snd (run_debate vendor key_present topic ai_pro ai_con rounds word_limit mode w)))) /\
  (forall m, instruction_suffix m = truth_seeking_suffix <-> m = "Truth-Seeking").
Proof.
  assert (Hs : instruction_suffix mode = adversarial_suffix).
  { unfold instruction_suffix. apply String.eqb_neq in Hm. now rewrite Hm. }
  split; [|split].
  - unfold run_debate. rewrite Hs. reflexivity.
  - destruct (run_debate vendor key_present topic ai_pro ai_con rounds word_limit mode w)
      as [log w'] eqn:E.
    destruct (run_debate_spec vendor key_present _ _ _ _ _ _ _ _ _ E)
      as (t1 & rest & -> & _ & _ & _ & A).
    simpl. rewrite A, skipn_app, skipn_all, Nat.sub_diag. cbn [skipn app]. rewrite Hs.
    apply debate_asks_suffix.
  - intros m. unfold instruction_suffix. split.
    + destruct (String.eqb_spec m "Truth-Seeking"); [auto|discriminate].
    + intros ->. reflexivity.
Qed.

End Claims.

(** ** Failures of one adapter call *)

Section Failures.

Variable key_present : Provider -> bool.
Variables (ai_pro ai_con : string) (pp pc : Provider).
Hypothesis Hpro : route ai_pro = Some pp.
Hypothesis Hpro_key : checks_key pp && negb (key_present pp) = false.
Hypothesis Hcon : route ai_con = Some pc.
Hypothesis Hcon_key : checks_key pc && negb (key_present pc) = false.

Lemma get_response_routed v ai p prompt mw w :
  route ai = Some p -> checks_key p && negb (key_present p) = false ->
  get_response v key_present ai prompt mw w =
  (outcome_text p (v (net w) (mkCall p (sent_model p ai) prompt (sent_budget p mw))),
   mkWorld (net w ++ [mkCall p (sent_model p ai) prompt (sent_budget p mw)])
           (asks w ++ [mkAsk ai prompt mw])).
Proof.
  intros Hr Hk. unfold get_response. rewrite Hr. unfold adapter. rewrite Hk.
  cbv zeta. destruct (v (net w) _); reflexivity.
Qed.

Ltac route_calls :=
  repeat first
    [ rewrite (get_response_routed _ ai_pro pp) by assumption
    | rewrite (get_response_routed _ ai_con pc) by assumption ];
  cbv beta iota zeta; cbn [net asks].

Lemma loop_turn_calls v topic wl sfx :
  forall rs pr cr w q t,
  nth_error (fst (debate_loop v key_present topic ai_pro ai_con wl sfx rs pr cr w)) q = Some t ->
  (exists h c, length h = (length (net w) + 2 * q)%nat /\
               pro_response t = outcome_text pp (v h c)) /\
  (exists h c, length h = (length (net w) + 2 * q + 1)%nat /\
               con_response t = outcome_text pc (v h c)).
Proof.
  induction rs as [|r rs IH]; intros pr cr w q t H; [destruct q; discriminate|].
  simpl in H. revert H. route_calls. intros H.
  match type of H with
  | context [debate_loop v key_present topic ai_pro ai_con wl sfx rs ?a ?b ?w2] =>
      specialize (IH a b w2);
      destruct (debate_loop v key_present topic ai_pro ai_con wl sfx rs a b w2)
        as [log w3] eqn:E
  end.
  simpl in H, IH. destruct q as [|q].
  - inversion H; subst; clear H. simpl. split.
    + eexists; eexists; split; [|reflexivity]. lia.
    + eexists; eexists; split; [|reflexivity]. rewrite length_app. simpl. lia.
  - simpl in H.
    destruct (IH _ _ H) as [(h1 & c1 & L1 & P1) (h2 & c2 & L2 & P2)].
    simpl in L1, L2. rewrite !length_app in L1, L2. simpl in L1, L2.
    split; do 2 eexists; (split; [|eassumption]); lia.
Qed.

Lemma loop_prefix v v' topic wl sfx :
  forall rs q pr cr w,
  agree_below (length (net w) + 2 * q) v v' ->
  firstn q (fst (debate_loop v key_present topic ai_pro ai_con wl sfx rs pr cr w)) =
  firstn q (fst (debate_loop v' key_present topic ai_pro ai_con wl sfx rs pr cr w)).
Proof.
  induction rs as [|r rs IH]; intros q pr cr w Hag; [reflexivity|].
  destruct q as [|q]; [reflexivity|].
  simpl. route_calls.
  rewrite (Hag (net w)) by lia.
  rewrite (Hag (net w ++ _)%list) by (rewrite length_app; simpl; lia).
  match goal with
  | |- context [debate_loop v key_present topic ai_pro ai_con wl sfx rs ?a ?b ?w2] =>
      specialize (IH q a b w2);
      destruct (debate_loop v key_present topic ai_pro ai_con wl sfx rs a b w2)
        as [log w3] eqn:E;
      destruct (debate_loop v' key_present topic ai_pro ai_con wl sfx rs a b w2)
        as [log' w3'] eqn:E'
  end.
  simpl in IH |- *. f_equal. apply IH.
  intros h c Hh. apply Hag. rewrite !length_app in Hh. simpl in Hh. lia.
Qed.

Lemma loop_prefix_pro v v' topic wl sfx :
  forall rs q pr cr w,
  agree_below (length (net w) + 2 * q + 1) v v' ->
  option_map pro_response
    (nth_error (fst (debate_loop v key_present topic ai_pro ai_con wl sfx rs pr cr w)) q) =
  option_map pro_response
    (nth_error (fst (debate_loop v' key_present topic ai_pro ai_con wl sfx rs pr cr w)) q).
Proof.
  induction rs as [|r rs IH]; intros q pr cr w Hag; [reflexivity|].
  simpl. route_calls.
  rewrite (Hag (net w)) by lia.
  destruct q as [|q].
  - match goal with
    | |- context [debate_loop v key_present topic ai_pro ai_con wl sfx rs ?a ?b ?w2] =>
        destruct (debate_loop v key_present topic ai_pro ai_con wl sfx rs a b w2)
    end.
    match goal with
    | |- context [debate_loop v' key_present topic ai_pro ai_con wl sfx rs ?a ?b ?w2] =>
        destruct (debate_loop v' key_present topic ai_pro ai_con wl sfx rs a b w2)
    end.
    reflexivity.
  - rewrite (Hag (net w ++ _)%list) by (rewrite length_app; simpl; lia).
    match goal with
    | |- context [debate_loop v key_present topic ai_pro ai_con wl sfx rs ?a ?b ?w2] =>
        specialize (IH q a b w2);
        destruct (debate_loop v key_present topic ai_pro ai_con wl sfx rs a b w2)
          as [log w3] eqn:E;
        destruct (debate_loop v' key_present topic ai_pro ai_con wl sfx rs a b w2)
          as [log' w3'] eqn:E'
    end.
    simpl in IH |- *. apply IH.
    intros h c Hh. apply Hag. rewrite !length_app in Hh. simpl in Hh. lia.
Qed.

Lemma run_turn_calls v topic rounds wl mode w q t :
  nth_error (fst (run_debate v key_present topic ai_pro ai_con rounds wl mode w)) q = Some t ->
  (exists h c, length h = (length (net w) + 2 * q)%nat /\
               pro_response t = outcome_text pp (v h c)) /\
  (exists h c, length h = (length (net w) + 2 * q + 1)%nat /\
               con_response t = outcome_text pc (v h c)).
Proof.
  unfold run_debate. route_calls.
  match goal with
  | |- context [debate_loop v key_present topic ai_pro ai_con wl ?sfx ?rs ?a ?b ?w2] =>
      pose proof (loop_turn_calls v topic wl sfx rs a b w2) as IH;
      destruct (debate_loop v key_present topic ai_pro ai_con wl sfx rs a b w2)
        as [log w3] eqn:E
  end.
  simpl in IH |- *. intros H. destruct q as [|q].
  - inversion H; subst; clear H. simpl. split.
    + eexists; eexists; split; [|reflexivity]. lia.
    + eexists; eexists; split; [|reflexivity]. rewrite length_app. simpl. lia.
  - simpl in H. destruct (IH _ _ H) as [(h1 & c1 & L1 & P1) (h2 & c2 & L2 & P2)].
    rewrite !length_app in L1, L2. simpl in L1, L2.
    split; do 2 eexists; (split; [|eassumption]); lia.
Qed.

Lemma run_prefix v v' topic rounds wl mode w q :
  agree_below (length (net w) + 2 * q) v v' ->
  firstn q (fst (run_debate v key_present topic ai_pro ai_con rounds wl mode w)) =
  firstn q (fst (run_debate v' key_present topic ai_pro ai_con rounds wl mode w)).
Proof.
  intros Hag. destruct q as [|q]; [reflexivity|].
  unfold run_debate. route_calls.
  rewrite (Hag (net w)) by lia.
  rewrite (Hag (net w ++ _)%list) by (rewrite length_app; simpl; lia).
  match goal with
  | |- context [debate_loop v key_present topic ai_pro ai_con wl ?sfx ?rs ?a ?b ?w2] =>
      pose proof (loop_prefix v v' topic wl sfx rs q a b w2) as IH;
      destruct (debate_loop v key_present topic ai_pro ai_con wl sfx rs a b w2)
        as [log w3] eqn:E;
      destruct (debate_loop v' key_present topic ai_pro ai_con wl sfx rs a b w2)
        as [log' w3'] eqn:E'
  end.
  simpl in IH |- *. f_equal. apply IH.
  intros h c Hh. apply Hag. rewrite !length_app in Hh. simpl in Hh. lia.
Qed.

Lemma run_prefix_pro v v' topic rounds wl mode w q :
  agree_below (length (net w) + 2 * q + 1) v v' ->
  option_map pro_response
    (nth_error (fst (run_debate v key_present topic ai_pro ai_con rounds wl mode w)) q) =
  option_map pro_response
    (nth_error (fst (run_debate v' key_present topic ai_pro ai_con rounds wl mode w)) q).
Proof.
  intros Hag. unfold run_debate. route_calls.
  rewrite (Hag (net w)) by lia.
  destruct q as [|q].
  - match goal with
    | |- context [debate_loop v key_present topic ai_pro ai_con wl ?sfx ?rs ?a ?b ?w2] =>
        destruct (debate_loop v key_present topic ai_pro ai_con wl sfx rs a b w2)
    end.
    match goal with
    | |- context [debate_loop v' key_present topic ai_pro ai_con wl ?sfx ?rs ?a ?b ?w2] =>
        destruct (debate_loop v' key_present topic ai_pro ai_con wl sfx rs a b w2)
    end.
    reflexivity.
  - rewrite (Hag (net w ++ _)%list) by (rewrite length_app; simpl; lia).
    match goal with
    | |- context [debate_loop v key_present topic ai_pro ai_con wl ?sfx ?rs ?a ?b ?w2] =>
        pose proof (loop_prefix_pro v v' topic wl sfx rs q a b w2) as IH;
        destruct (debate_loop v key_present topic ai_pro ai_con wl sfx rs a b w2)
          as [log w3] eqn:E;
        destruct (debate_loop v' key_present topic ai_pro ai_con wl sfx rs a b w2)
          as [log' w3'] eqn:E'
    end.
    simpl in IH |- *. apply IH.
    intros h c Hh. apply Hag. rewrite !length_app in Hh. simpl in Hh. lia.
Qed.

(** C3 (amended): when the vendor call of one side in round [k] fails (the
    call preceded by [j] others raises [d]), the run still yields its
    [rounds] Turns numbered 1..[rounds]; that side's text in Turn [k] is the
    adapter's tagged error string; the Turns of earlier rounds, and the PRO
    text of round [k] when CON is the failing side, are those of the run
    without the failure.  Later Turns are not claimed equal: their prompts
    quote the error string. *)
Theorem run_debate_single_failure v topic rounds wl mode w k side d
    (Hk1 : (1 <= k)%nat) (Hk2 : (Z.of_nat k <= rounds)%Z) :
  let j := (length (net w) + 2 * (k - 1) +
            match side with SPro => 0 | SCon => 1 end)%nat in
  let ok := fst (run_debate v key_present topic ai_pro ai_con rounds wl mode w) in
  let bad := fst (run_debate (fail_at j d v) key_present topic ai_pro ai_con rounds wl mode w) in
  length bad = Z.to_nat rounds /\
  map round bad = map Z.of_nat (seq 1 (Z.to_nat rounds)) /\
  (exists t, nth_error bad (k - 1) = Some t /\
     match side with
     | SPro => pro_response t = adapter_error pp d
     | SCon => con_response t = adapter_error pc d
     end) /\
  firstn (k - 1) bad = firstn (k - 1) ok /\
  (side = SCon -> option_map pro_response (nth_error bad (k - 1)) =
                  option_map pro_response (nth_error ok (k - 1))).
Proof.
  intros j ok bad.
  destruct (run_debate_log_rounds (fail_at j d v) key_present topic ai_pro ai_con
              rounds wl mode w ltac:(lia)) as [L [M _]].
  fold bad in L, M.
  split; [exact L|]. split; [exact M|]. split; [|split].
  - destruct (nth_error bad (k - 1)) as [t|] eqn:N.
    + exists t. split; [reflexivity|].
      destruct (run_turn_calls (fail_at j d v) topic rounds wl mode w (k - 1) t N)
        as [(h1 & c1 & L1 & P1) (h2 & c2 & L2 & P2)].
      unfold fail_at in P1, P2. destruct side.
      * replace (Nat.eqb (length h1) j) with true in P1
          by (symmetry; apply Nat.eqb_eq; subst j; lia). exact P1.
      * replace (Nat.eqb (length h2) j) with true in P2
          by (symmetry; apply Nat.eqb_eq; subst j; lia). exact P2.
    + apply nth_error_None in N. lia.
  - apply run_prefix. intros h c Hh. unfold fail_at.
    replace (Nat.eqb (length h) j) with false
      by (symmetry; apply Nat.eqb_neq; subst j; destruct side; lia).
    reflexivity.
  - intros ->. apply run_prefix_pro. intros h c Hh. unfold fail_at.
    replace (Nat.eqb (length h) j) with false
      by (symmetry; apply Nat.eqb_neq; subst j; lia).
    reflexivity.
Qed.

End Failures.

(** ** The mode instruction *)

Section Modes.

Variable vendor : list Call -> Call -> VendorOutcome.
Variable key_present : Provider -> bool.

(** C8 (amended): every prompt a run issues (both sides, every round) is a
    skeleton followed by the mode instruction; the skeletons are built from
    the log with no instruction, so they do not depend on the mode.  Two runs
    that differ only in mode issue as many prompts, and their round-1
    prompts differ exactly in the instruction; a later prompt quotes the
    opponent's previous answer, which belongs to each run's own log. *)
Theorem run_debate_mode_instruction topic ai_pro ai_con rounds wl m1 m2 w :
  let '(log1, w1) := run_debate vendor key_present topic ai_pro ai_con rounds wl m1 w in
  let '(log2, w2) := run_debate vendor key_present topic ai_pro ai_con rounds wl m2 w in
  let sk1 := map ask_prompt (debate_asks topic ai_pro ai_con wl "" log1) in
  let sk2 := map ask_prompt (debate_asks topic ai_pro ai_con wl "" log2) in
  map ask_prompt (skipn (length (asks w)) (asks w1)) =
    map (fun b => b ++ instruction_suffix m1) sk1 /\
  map ask_prompt (skipn (length (asks w)) (asks w2)) =
    map (fun b => b ++ instruction_suffix m2) sk2 /\
  length sk1 = length sk2 /\
  firstn 2 sk1 = firstn 2 sk2.
Proof.
  destruct (run_debate vendor key_present topic ai_pro ai_con rounds wl m1 w)
    as [log1 w1] eqn:E1.
  destruct (run_debate vendor key_present topic ai_pro ai_con rounds wl m2 w)
    as [log2 w2] eqn:E2.
  destruct (run_debate_spec vendor key_present _ _ _ _ _ _ _ _ _ E1)
    as (t1 & r1 & -> & _ & R1 & _ & A1).
  destruct (run_debate_spec vendor key_present _ _ _ _ _ _ _ _ _ E2)
    as (t2 & r2 & -> & _ & R2 & _ & A2).
  cbv zeta. rewrite A1, A2, !skipn_app, !skipn_all, !Nat.sub_diag. cbn [skipn app].
  rewrite (debate_asks_skeleton _ _ _ _ (instruction_suffix m1)).
  rewrite (debate_asks_skeleton _ _ _ _ (instruction_suffix m2)).
  split; [reflexivity|]. split; [reflexivity|].
  split.
  - rewrite !length_map. simpl. rewrite !rebuttal_asks_length.
    rewrite <- (length_map round r1), <- (length_map round r2), R1, R2. reflexivity.
  - reflexivity.
Qed.

End Modes.

(** ** Extracting the judge's JSON *)

Lemma has_char_cons (c d : ascii) (s : string) :
  has_char c (String d s) = Ascii.eqb c d || has_char c s.
Proof. reflexivity. Qed.

Lemma last_close_none (post : string) :
  has_char "}" post = false -> last_close post = None.
Proof.
  induction post as [|c post IH]; [reflexivity|].
  rewrite has_char_cons. intros H. apply orb_false_iff in H as [H1 H2].
  simpl. rewrite (IH H2), Ascii.eqb_sym, H1. reflexivity.
Qed.

Lemma last_close_app (mid post : string) :
  has_char "}" post = false -> last_close (mid ++ String "}" post) = Some mid.
Proof.
  intros H. induction mid as [|c mid IH]; simpl.
  - rewrite (last_close_none post H). reflexivity.
  - rewrite IH. reflexivity.
Qed.

Lemma last_close_some (s mid : string) :
  last_close s = Some mid -> exists post, s = mid ++ String "}" post.
Proof.
  revert mid. induction s as [|c s IH]; simpl; intros mid H; [discriminate|].
  destruct (last_close s) as [m|] eqn:E.
  - injection H as <-. destruct (IH m eq_refl) as [post ->]. exists post. reflexivity.
  - destruct (Ascii.eqb c "}") eqn:Ec; [|discriminate].
    injection H as <-. apply Ascii.eqb_eq in Ec. subst c. exists s. reflexivity.
Qed.

Lemma json_match_skip (pre s : string) :
  has_char "{" pre = false -> json_match (pre ++ s) = json_match s.
Proof.
  induction pre as [|c pre IH]; [reflexivity|].
  rewrite has_char_cons. intros H. apply orb_false_iff in H as [H1 H2].
  simpl. rewrite Ascii.eqb_sym, H1. exact (IH H2).
Qed.

(** The regex takes the first ['{'] and the last ['}'] after it. *)
Lemma json_match_greedy (pre mid post : string) :
  has_char "{" pre = false -> has_char "}" post = false ->
  json_match (pre ++ "{" ++ mid ++ "}" ++ post) = Some ("{" ++ mid ++ "}").
Proof.
  intros Hpre Hpost. rewrite (json_match_skip pre _ Hpre). simpl.
  rewrite (last_close_app mid post Hpost). reflexivity.
Qed.

Lemma json_match_some (s span : string) :
  json_match s = Some span ->
  exists pre mid post, s = pre ++ "{" ++ mid ++ "}" ++ post /\ span = "{" ++ mid ++ "}".
Proof.
  induction s as [|c s IH]; simpl; intros H; [discriminate|].
  destruct (Ascii.eqb c "{") eqn:Ec.
  - destruct (last_close s) as [mid|] eqn:E.
    + injection H as <-. apply Ascii.eqb_eq in Ec. subst c.
      destruct (last_close_some s mid E) as [post ->].
      exists "", mid, post. split; reflexivity.
    + destruct (IH H) as (pre & mid & post & -> & ->).
      exists (String c pre), mid, post. split; reflexivity.
  - destruct (IH H) as (pre & mid & post & -> & ->).
    exists (String c pre), mid, post. split; reflexivity.
Qed.

(** ** The judge's arithmetic and field accesses *)

Lemma py_sum_from_ok (acc : Z) (xs : list Json) :
  forallb is_num xs = true -> py_sum_from acc xs = inr (acc + zsum xs)%Z.
Proof.
  revert acc. induction xs as [|x xs IH]; intros acc H; simpl.
  - f_equal. lia.
  - simpl in H. unfold is_num in H.
    destruct (num_val x) as [n|]; [|discriminate].
    rewrite (IH _ H). f_equal. lia.
Qed.

Lemma py_sum_from_inr (acc t : Z) (xs : list Json) :
  py_sum_from acc xs = inr t -> forallb is_num xs = true /\ t = (acc + zsum xs)%Z.
Proof.
  revert acc. induction xs as [|x xs IH]; intros acc H; simpl in *.
  - injection H as <-. split; [reflexivity | lia].
  - unfold is_num. destruct (num_val x) as [n|]; [|discriminate].
    destruct (IH _ H) as [H1 H2]. split; [exact H1 | lia].
Qed.

Lemma zsum_cons (x : Json) (xs : list Json) :
  zsum (x :: xs) = (match num_val x with Some n => n | None => 0 end + zsum xs)%Z.
Proof. unfold zsum. simpl. destruct (num_val x); lia. Qed.

Lemma zsum_perm (xs ys : list Json) : Permutation xs ys -> zsum xs = zsum ys.
Proof.
  induction 1; rewrite ?zsum_cons; try lia.
Qed.

Lemma forallb_perm {A : Type} (f : A -> bool) (xs ys : list A) :
  Permutation xs ys -> forallb f xs = forallb f ys.
Proof.
  induction 1; simpl; try congruence.
  repeat match goal with |- context [f ?a] => destruct (f a) end; reflexivity.
Qed.

(** [sum] of a permutation: the same result. *)
Lemma py_sum_perm (xs ys : list Json) (t : Z) :
  Permutation xs ys -> py_sum xs = inr t -> py_sum ys = inr t.
Proof.
  intros HP H. unfold py_sum in *. apply py_sum_from_inr in H as [H1 ->].
  rewrite (forallb_perm _ _ _ HP) in H1. rewrite (py_sum_from_ok _ _ H1).
  rewrite (zsum_perm _ _ HP). reflexivity.
Qed.

Lemma assoc_nodup (kvs : list (string * Json)) :
  NoDup (map fst kvs) -> map (fun k => assoc k kvs) (map fst kvs) = map Some (map snd kvs).
Proof.
  induction kvs as [|[k v] kvs IH]; intros Hnd; [reflexivity|].
  simpl in *. inversion Hnd as [|? ? Hnotin Hnd']. subst.
  rewrite String.eqb_refl. f_equal. rewrite <- IH by exact Hnd'.
  apply map_ext_in. intros k' Hk'.
  destruct (String.eqb k' k) eqn:E; [|reflexivity].
  apply String.eqb_eq in E. subst k'. contradiction.
Qed.

Lemma score_sheet_inv (x : Json) (t : Z) (sh : ScoreSheet) :
  score_sheet x t = inr sh ->
  exists kvs, x = JObj kvs /\
    map Some (sheet_values sh) = map (fun k => assoc k kvs) score_keys /\ total sh = t.
Proof.
  intros Hs. destruct x as [|b|n|s|xs|kvs]; try (simpl in Hs; discriminate Hs).
  exists kvs. split; [reflexivity|]. cbn [map score_keys].
  unfold score_sheet, getitem in Hs. cbn [py_bind] in Hs.
  repeat match type of Hs with
  | context [assoc ?k kvs] => destruct (assoc k kvs); cbn [py_bind] in Hs; [|discriminate Hs]
  end.
  injection Hs as <-. split; reflexivity.
Qed.









Ltac py_step H :=
  match type of H with
  | py_bind ?m _ = _ =>
      let E := fresh "E" in destruct m eqn:E; cbn [py_bind] in H; [try discriminate|]
  end.

(** ** The audio script *)

Lemma concat_app_suffix (sep : string) (l J : list string) :
  J <> [] -> exists pre, String.concat sep (l ++ J) = pre ++ String.concat sep J.
Proof.
  intros HJ. induction l as [|a l IH].
  - exists "". reflexivity.
  - destruct IH as [pre Hp]. change (app (a :: l) J) with (a :: app l J).
    destruct (app l J) as [|b r] eqn:E.
    + apply app_eq_nil in E as [_ E]. contradiction.
    + exists (a ++ sep ++ pre).
      change (String.concat sep (a :: b :: r)) with (a ++ sep ++ String.concat sep (b :: r)).
      rewrite Hp, !sapp_assoc. reflexivity.
Qed.

Lemma concat_app_prefix (sep : string) (M l : list string) :
  M <> [] -> exists post, String.concat sep (M ++ l) = String.concat sep M ++ post.
Proof.
  intros HM. induction M as [|a M IH]; [contradiction|].
  destruct M as [|b M'].
  - destruct l as [|c l'].
    + exists "". simpl. rewrite sapp_nil_r. reflexivity.
    + exists (sep ++ String.concat sep (c :: l')). reflexivity.
  - destruct (IH ltac:(discriminate)) as [post Hp]. exists post.
    change (String.concat sep (app (a :: b :: M') l))
      with (a ++ sep ++ String.concat sep (app (b :: M') l)).
    change (String.concat sep (a :: b :: M')) with (a ++ sep ++ String.concat sep (b :: M')).
    rewrite Hp, !sapp_assoc. reflexivity.
Qed.

Lemma concat_app_infix (sep : string) (l M r : list string) :
  M <> [] -> exists pre post, String.concat sep (l ++ M ++ r) = pre ++ String.concat sep M ++ post.
Proof.
  intros HM.
  assert (HMr : app M r <> []) by (destruct M; [contradiction | discriminate]).
  destruct (concat_app_suffix sep l (app M r) HMr) as [pre Hpre].
  destruct (concat_app_prefix sep M r HM) as [post Hpost].
  exists pre, post. rewrite Hpre, Hpost. reflexivity.
Qed.

Lemma py_str_items_inr (i : Z) (xs : list Json) (ss : list string) :
  py_str_items i xs = inr ss -> xs = map JStr ss.
Proof.
  revert i ss. induction xs as [|x xs IH]; intros i ss H; simpl in H.
  - injection H as <-. reflexivity.
  - destruct x as [| | |s| |]; try discriminate.
    destruct (py_str_items (i + 1)%Z xs) as [e|ss'] eqn:E; cbn [py_bind] in H; [discriminate|].
    injection H as <-. simpl. f_equal. exact (IH _ _ E).
Qed.

Lemma map_JStr_app_inv (ss L : list string) (R : list Json) :
  map JStr ss = app (map JStr L) R -> exists ss', ss = app L ss' /\ R = map JStr ss'.
Proof.
  revert ss. induction L as [|a L IH]; intros ss H.
  - exists ss. split; [reflexivity | symmetry; exact H].
  - destruct ss as [|b ss]; [discriminate|]. simpl in H. injection H as Hab H.
    subst b. destruct (IH ss H) as [ss' [-> HR]]. exists ss'. split; [reflexivity | exact HR].
Qed.

Lemma map_JStr_inj (l l' : list string) : map JStr l = map JStr l' -> l = l'.
Proof.
  revert l'. induction l as [|a l IH]; intros [|b l'] H; try discriminate; [reflexivity|].
  simpl in H. injection H as Hab H. subst b. f_equal. exact (IH _ H).
Qed.

(** The strings joined into the script, when the join succeeds. *)
Lemma audio_script_strings topic debate_log mode summary judging ai_pro ai_con full_script :
  py_join_nl (audio_script topic debate_log mode summary judging ai_pro ai_con) = inr full_script ->
  exists rest,
    full_script = join_nl ((intro_parts topic mode (length debate_log) ai_pro ai_con ++
                            flat_map round_parts debate_log) ++ rest) /\
    app (summary_parts summary) (judge_parts judging) = map JStr rest.
Proof.
  unfold py_join_nl. intros Hj.
  destruct (py_str_items 0 _) as [e|ss] eqn:E; cbn [py_bind] in Hj; [discriminate|].
  injection Hj as <-. apply py_str_items_inr in E. unfold audio_script in E.
  destruct (map_JStr_app_inv ss _ _ (eq_sym E)) as [rest [-> Hrest]].
  exists rest. split; [reflexivity | exact Hrest].
Qed.

Section JudgeClaims.

Variable json_loads : string -> Py Json.

Lemma judge_from_response_body (judge_ai resp : string) :
  str_in "[ERROR:" resp = false ->
  judge_from_response json_loads judge_ai resp =
  match judge_body json_loads judge_ai resp with
  | inl e => JError (judge_handler resp e)
  | inr v => JVerdict v
  end.
Proof. intros Hok. unfold judge_from_response. rewrite Hok. reflexivity. Qed.

(** [judge_debate] hands the judge model's text to [judge_from_response]. *)
Lemma judge_debate_response (vendor : list Call -> Call -> VendorOutcome)
    (key_present : Provider -> bool) topic debate_log mode judge_ai ai_pro ai_con w :
  judge_debate vendor key_present json_loads topic debate_log mode judge_ai ai_pro ai_con w =
  let r := get_response vendor key_present judge_ai
             (judge_prompt topic mode ai_pro ai_con
                (join_nl (transcript_lines ai_pro ai_con debate_log))) 800 w in
  (judge_from_response json_loads judge_ai (fst r), snd r).
Proof.
  unfold judge_debate. destruct (get_response _ _ _ _ _ _). reflexivity.
Qed.

(** C4 (amended): the text handed to [json.loads] is the span from the first
    ['{'] of the answer to its last ['}'], whatever follows or lies between;
    the whole answer is parsed only when it has no ['{'] followed by a ['}'],
    never after the span fails; a decoding failure becomes the
    could-not-parse error string with the first 200 characters of the answer. *)
Theorem judge_from_response_span (judge_ai resp : string)
    (Hok : str_in "[ERROR:" resp = false) :
  (forall pre mid post,
     resp = pre ++ "{" ++ mid ++ "}" ++ post ->
     has_char "{" pre = false -> has_char "}" post = false ->
     parse_judge_response json_loads resp = json_loads ("{" ++ mid ++ "}")) /\
  ((forall pre mid post, resp <> pre ++ "{" ++ mid ++ "}" ++ post) ->
     parse_judge_response json_loads resp = json_loads resp) /\
  (forall m, parse_judge_response json_loads resp = inl (JSONDecodeError m) ->
     judge_from_response json_loads judge_ai resp = JError (parse_error m resp)).
Proof.
  split; [|split].
  - intros pre mid post -> Hpre Hpost. unfold parse_judge_response.
    rewrite (json_match_greedy pre mid post Hpre Hpost). reflexivity.
  - intros Hnone. unfold parse_judge_response.
    destruct (json_match resp) as [span|] eqn:E; [|reflexivity].
    destruct (json_match_some resp span E) as (pre & mid & post & Hr & _).
    exfalso. exact (Hnone pre mid post Hr).
  - intros m Hm. rewrite (judge_from_response_body judge_ai resp Hok).
    unfold judge_body. rewrite Hm. reflexivity.
Qed.

(** C5: when the judge returns a verdict and each score map holds exactly the
    six categories, each side's [total] is the sum of that side's six scores
    as read from the parsed map, computed by the judge itself. *)
Theorem judge_totals_recomputed (judge_ai resp : string) (v : Verdict) (data : Json)
    (ps cs : list (string * Json))
    (Hv : judge_from_response json_loads judge_ai resp = JVerdict v)
    (Hd : parse_judge_response json_loads resp = inr data)
    (Hp : getitem data "pro_scores" = inr (JObj ps))
    (Hc : getitem data "con_scores" = inr (JObj cs))
    (Hps : Permutation (map fst ps) score_keys)
    (Hcs : Permutation (map fst cs) score_keys) :
  map Some (sheet_values (v_pro v)) = map (fun k => assoc k ps) score_keys /\
  map Some (sheet_values (v_con v)) = map (fun k => assoc k cs) score_keys /\
  py_sum (sheet_values (v_pro v)) = inr (total (v_pro v)) /\
  py_sum (sheet_values (v_con v)) = inr (total (v_con v)).
Proof.
  unfold judge_from_response in Hv.
  destruct (str_in "[ERROR:" resp); [discriminate|].
  destruct (judge_body json_loads judge_ai resp) as [e|v'] eqn:Hb; [discriminate|].
  injection Hv as ->. unfold judge_body in Hb. rewrite Hd in Hb. cbn [py_bind] in Hb.
  rewrite Hp in Hb. cbn [py_bind dict_values] in Hb.
  py_step Hb. rewrite Hc in Hb. cbn [py_bind dict_values] in Hb.
  py_step Hb. py_step Hb. py_step Hb. py_step Hb. py_step Hb.
  injection Hb as <-. cbn [v_pro v_con].
  rename E into Sp, E0 into Sc, E1 into Shp, E2 into Shc.
  destruct (score_sheet_inv _ _ _ Shp) as (kp & Hkp & Vp & Tp).
  destruct (score_sheet_inv _ _ _ Shc) as (kc & Hkc & Vc & Tc).
  injection Hkp as <-. injection Hkc as <-.
  assert (Hnd : NoDup score_keys) by (repeat constructor; simpl; intuition discriminate).
  (* The six values read are a permutation of the map's values. *)
  assert (Hperm : forall kvs sh, Permutation (map fst kvs) score_keys ->
            map Some (sheet_values sh) = map (fun k => assoc k kvs) score_keys ->
            Permutation (map snd kvs) (sheet_values sh)).
  { intros kvs sh HP HV.
    pose proof (Permutation_map (fun k => assoc k kvs) HP) as HP'.
    rewrite <- HV, (assoc_nodup kvs (Permutation_NoDup (Permutation_sym HP) Hnd)) in HP'.
    pose proof (Permutation_map (fun o => match o with Some x => x | None => JNull end) HP') as HP''.
    rewrite !map_map in HP''. rewrite !map_id in HP''. exact HP''. }
  split; [exact Vp|]. split; [exact Vc|]. rewrite Tp, Tc. split.
  - exact (py_sum_perm _ _ _ (Hperm ps _ Hps Vp) Sp).
  - exact (py_sum_perm _ _ _ (Hperm cs _ Hcs Vc) Sc).
Qed.



End JudgeClaims.

Section AudioClaims.

Variable tts : list SynthCall -> SynthCall -> TtsOutcome.

(** C9 (amended): once the library imports, the key is set and the script
    joins, [generate_audio] makes exactly one speech request, with the single
    narrator voice [en-US-Neural2-J], and returns that request's audio as is.
    The script is, in this order, the intro, the blocks of the rounds in
    transcript order (each with its PRO text and then its CON text), the
    summary lines and the judge lines; with a verdict it ends in both totals,
    the full commentary and the verdict text. *)
Theorem generate_audio_one_narrator_call (key topic mode ai_pro ai_con full_script : string)
    (debate_log : list Turn) (summary : option (list (string * Json)))
    (judging : option JudgeOut) (h : list SynthCall)
    (Hkey : key <> "")
    (Hj : py_join_nl (audio_script topic debate_log mode summary judging ai_pro ai_con) =
          inr full_script) :
  generate_audio true (Some key) tts topic debate_log mode summary judging ai_pro ai_con h =
    (match tts h (mkSynth "en-US" narrator_voice full_script) with
     | TtsAudio a => AudioBytes a
     | TtsFail d => AudioError ("[ERROR: Audio generation failed - " ++ d ++ "]")
     end, (h ++ [mkSynth "en-US" narrator_voice full_script])%list) /\
  (exists S J,
     full_script = join_nl (app (intro_parts topic mode (length debate_log) ai_pro ai_con)
                           (app (flat_map round_parts debate_log) (app S J))) /\
     map JStr S = summary_parts summary /\ map JStr J = judge_parts judging) /\
  (forall e, In e debate_log -> exists pre post,
     full_script = pre ++ join_nl ["PRO argument:"; pro_response e; "";
                                   "CON argument:"; con_response e] ++ post) /\
  (forall v cm vd, judging = Some (JVerdict v) -> v_commentary v = JStr cm ->
     v_verdict v = JStr vd ->
     exists pre, full_script =
       pre ++ join_nl ["Judge's Verdict"; "";
                       "The judge has scored the debate across six categories.";
                       "PRO total score: " ++ str_Z (total (v_pro v)) ++ " out of 60";
                       "CON total score: " ++ str_Z (total (v_con v)) ++ " out of 60";
                       ""; "Judge's Commentary:"; cm; ""; "Final Verdict:"; vd]).
Proof.
  split; [|split; [|split]].
  - unfold generate_audio. cbn [negb].
    destruct key as [|ch k]; [contradiction|]. rewrite Hj.
    destruct (tts h _); reflexivity.
  - destruct (audio_script_strings _ _ _ _ _ _ _ _ Hj) as (rest & -> & Hrest).
    symmetry in Hrest. apply map_eq_app in Hrest as (S & J & -> & HS & HJ).
    exists S, J. split; [rewrite <- app_assoc; reflexivity | split; assumption].
  - intros e He. destruct (audio_script_strings _ _ _ _ _ _ _ _ Hj) as (rest & -> & _).
    set (I := intro_parts topic mode (length debate_log) ai_pro ai_con).
    destruct (in_split e debate_log He) as (l1 & l2 & Hl).
    assert (Hs : app (app I (flat_map round_parts debate_log)) rest =
                 app (app I (app (flat_map round_parts l1) ["Round " ++ str_Z (round e); ""]))
                 (app ["PRO argument:"; pro_response e; ""; "CON argument:"; con_response e]
                 (app [""] (app (flat_map round_parts l2) rest)))).
    { rewrite Hl, flat_map_app. simpl. rewrite <- !app_assoc. reflexivity. }
    unfold join_nl. rewrite Hs. apply concat_app_infix. discriminate.
  - intros v cm vd -> Hcm Hvd.
    destruct (audio_script_strings _ _ _ _ _ _ _ _ Hj) as (rest & -> & Hrest).
    symmetry in Hrest. apply map_eq_app in Hrest as (rs & rj & -> & _ & Hj').
    unfold judge_parts in Hj'. rewrite Hcm, Hvd in Hj'.
    assert (Hm : map JStr rj =
                 map JStr ["Judge's Verdict"; "";
                           "The judge has scored the debate across six categories.";
                           "PRO total score: " ++ str_Z (total (v_pro v)) ++ " out of 60";
                           "CON total score: " ++ str_Z (total (v_con v)) ++ " out of 60";
                           ""; "Judge's Commentary:"; cm; ""; "Final Verdict:"; vd])
      by (rewrite Hj'; reflexivity).
    apply map_JStr_inj in Hm. subst rj.
    unfold join_nl. rewrite app_assoc.
    apply concat_app_suffix. discriminate.
Qed.

End AudioClaims.

(** ** Beyond the claims: the debate loop *)

Section DebateLength.

Variable vendor : list Call -> Call -> VendorOutcome.
Variable key_present : Provider -> bool.

(** [run_debate] plays round 1 before its loop, so a round count of one,
    zero or less still gives one round; otherwise it gives [rounds] rounds,
    numbered from 1. *)
Theorem run_debate_turn_count topic ai_pro ai_con rounds wl mode w :
  length (fst (run_debate vendor key_present topic ai_pro ai_con rounds wl mode w)) =
    Z.to_nat (Z.max 1 rounds) /\
  map round (fst (run_debate vendor key_present topic ai_pro ai_con rounds wl mode w)) =
    map Z.of_nat (seq 1 (Z.to_nat (Z.max 1 rounds))).
Proof.
  destruct (run_debate vendor key_present topic ai_pro ai_con rounds wl mode w)
    as [log w'] eqn:E. cbn [fst].
  destruct (run_debate_spec _ _ _ _ _ _ _ _ _ _ _ E) as (t1 & rest & -> & R1 & Rr & _).
  assert (Hn : Z.to_nat (Z.max 1 rounds) = S (Z.to_nat (rounds + 1 - 2))) by lia.
  rewrite Hn. split.
  - cbn [length]. f_equal. rewrite <- (length_map round rest), Rr.
    unfold range_Z. rewrite length_map, length_seq. reflexivity.
  - cbn [map seq]. rewrite R1, Rr. f_equal.
    unfold range_Z. rewrite seq_as_range. reflexivity.
Qed.

End DebateLength.

Section DebateCalls.

Variable key_present : Provider -> bool.
Variables (ai_pro ai_con : string) (pp pc : Provider).
Hypothesis Hpro : route ai_pro = Some pp.
Hypothesis Hpro_key : checks_key pp && negb (key_present pp) = false.
Hypothesis Hcon : route ai_con = Some pc.
Hypothesis Hcon_key : checks_key pc && negb (key_present pc) = false.

(** The vendor, model name and token budget of a call. *)
Definition call_sig (c : Call) : Provider * string * option Z :=
  (call_provider c, call_model c, call_max_tokens c).

Definition turn_sigs (wl : Z) (t : Turn) : list (Provider * string * option Z) :=
  [(pp, sent_model pp ai_pro, sent_budget pp wl); (pc, sent_model pc ai_con, sent_budget pc wl)].

Lemma loop_calls v topic wl sfx rs :
  forall pr cr w log w',
  debate_loop v key_present topic ai_pro ai_con wl sfx rs pr cr w = (log, w') ->
  exists calls, net w' = app (net w) calls /\
    map call_sig calls = flat_map (turn_sigs wl) log.
Proof.
  induction rs as [|r rs IH]; intros pr cr w log w' E; cbn [debate_loop] in E.
  - injection E as <- <-. exists []. rewrite app_nil_r. split; reflexivity.
  - rewrite (get_response_routed key_present v ai_pro pp _ _ _ Hpro Hpro_key) in E.
    rewrite (get_response_routed key_present v ai_con pc _ _ _ Hcon Hcon_key) in E.
    cbn [net asks] in E.
    match type of E with
    | context [debate_loop v key_present topic ai_pro ai_con wl sfx rs ?a ?b ?w2] =>
        destruct (debate_loop v key_present topic ai_pro ai_con wl sfx rs a b w2)
          as [log' w3] eqn:E3
    end.
    injection E as <- <-.
    destruct (IH _ _ _ _ _ E3) as (calls & Hn & Hs).
    cbn [net] in Hn. rewrite <- !app_assoc in Hn.
    eexists. split; [exact Hn|].
    cbn [app map flat_map]. rewrite Hs. reflexivity.
Qed.

(** With both debaters routed and their keys present, a debate makes two
    calls per round, PRO then CON, each to the debater's vendor, with the
    model name that vendor's adapter sends and a budget of twice the word
    limit (none for Gemini). *)
Theorem run_debate_network_calls v topic rounds wl mode w :
  exists calls,
    net (snd (run_debate v key_present topic ai_pro ai_con rounds wl mode w)) =
      app (net w) calls /\
    map call_sig calls =
      flat_map (turn_sigs wl) (fst (run_debate v key_present topic ai_pro ai_con rounds wl mode w)).
Proof.
  unfold run_debate.
  rewrite (get_response_routed key_present v ai_pro pp _ _ _ Hpro Hpro_key).
  rewrite (get_response_routed key_present v ai_con pc _ _ _ Hcon Hcon_key).
  cbn [net asks].
  match goal with
  | |- context [debate_loop v key_present topic ai_pro ai_con wl ?sfx ?rs ?a ?b ?w2] =>
      destruct (debate_loop v key_present topic ai_pro ai_con wl sfx rs a b w2)
        as [log w3] eqn:E3
  end.
  destruct (loop_calls _ _ _ _ _ _ _ _ _ _ E3) as (calls & Hn & Hs).
  cbn [fst snd]. cbn [net] in Hn. rewrite <- !app_assoc in Hn.
  eexists. split; [exact Hn|].
  cbn [app map flat_map]. rewrite Hs. reflexivity.
Qed.

End DebateCalls.

(** ** Beyond the claims: the summary *)

Section SummaryProps.

Variable vendor : list Call -> Call -> VendorOutcome.
Variable key_present : Provider -> bool.

(** [generate_summary] always goes to Claude's adapter with the fixed model
    [claude-sonnet-4-20250514] and a budget of 600 tokens, whichever AIs
    debated, and bypasses [get_response]: when the Anthropic client exists
    (it does even without [ANTHROPIC_API_KEY]) it makes exactly that one call
    and reports its text, or the Claude error string when the call fails (as
    it does without a key); only when the client could not be built does it
    make no call and report the client error.  [total_rounds] is the number
    of turns. *)
Theorem generate_summary_claude_call topic debate_log mode w :
  let c := mkCall PClaude summary_model (summary_prompt topic debate_log mode) (Some 600%Z) in
  asks (snd (generate_summary vendor key_present topic debate_log mode w)) = asks w /\
  assoc "total_rounds" (fst (generate_summary vendor key_present topic debate_log mode w)) =
    Some (JInt (Z.of_nat (length debate_log))) /\
  (key_present PClaude = true ->
     net (snd (generate_summary vendor key_present topic debate_log mode w)) = app (net w) [c] /\
     assoc "summary" (fst (generate_summary vendor key_present topic debate_log mode w)) =
       Some (JStr (outcome_text PClaude (vendor (net w) c))) /\
     (forall d, vendor (net w) c = VFail d ->
        assoc "summary" (fst (generate_summary vendor key_present topic debate_log mode w)) =
          Some (JStr ("[ERROR: Claude API call failed - " ++ d ++ "]")))) /\
  (key_present PClaude = false ->
     net (snd (generate_summary vendor key_present topic debate_log mode w)) = net w /\
     assoc "summary" (fst (generate_summary vendor key_present topic debate_log mode w)) =
       Some (JStr "[ERROR: Anthropic client not initialized. Check API key.]")).
Proof.
  intros c. unfold generate_summary, adapter. cbn [checks_key andb].
  destruct (key_present PClaude) eqn:K; cbn [negb].
  - subst c. cbn [sent_model sent_budget]. replace (300 * 2)%Z with 600%Z by reflexivity.
    destruct (vendor (net w) _) as [text|d0]; repeat split; try discriminate;
      intros d Hd; first [discriminate Hd | injection Hd as <-; reflexivity].
  - repeat split; discriminate.
Qed.

End SummaryProps.
(** ** Beyond the claims: the judge's failures *)

Lemma str_in_error_prefix (s : string) : str_in "[ERROR:" ("[ERROR:" ++ s) = true.
Proof. destruct s; reflexivity. Qed.

Lemma py_sum_from_first_bad (pre post : list (string * Json)) (k : string) (x : Json) :
  forall acc, forallb is_num (map snd pre) = true -> is_num x = false ->
  py_sum_from acc (map snd (app pre ((k, x) :: post))) =
  inl (OtherError ("unsupported operand type(s) for +: 'int' and " ++ sq ++ py_type_name x ++ sq)).
Proof.
  induction pre as [|[k' y] pre IH]; intros acc Hpre Hx.
  - cbn [app map snd py_sum_from]. unfold is_num in Hx.
    destruct (num_val x); [discriminate | reflexivity].
  - cbn [app map snd forallb] in *. apply andb_prop in Hpre as [Hy Hpre].
    cbn [py_sum_from]. unfold is_num in Hy. destruct (num_val y); [|discriminate].
    exact (IH _ Hpre Hx).
Qed.

Section JudgeFailures.

Variable vendor : list Call -> Call -> VendorOutcome.
Variable key_present : Provider -> bool.
Variable json_loads : string -> Py Json.


(** Every error [judge_debate] returns starts with ["[ERROR: "], the marker
    [app.py] looks for before showing "Judge scoring failed". *)
Theorem judge_debate_error_marker topic debate_log mode judge_ai ai_pro ai_con w :
  match fst (judge_debate vendor key_present json_loads topic debate_log mode
               judge_ai ai_pro ai_con w) with
  | JError m => exists rest, m = "[ERROR: " ++ rest
  | JVerdict _ => True
  end.
Proof.
  rewrite judge_debate_response. cbn zeta. cbn [fst].
  unfold judge_from_response.
  destruct (str_in _ _).
  - eexists. reflexivity.
  - destruct (judge_body _ _ _) as [e|v]; [|exact I].
    destruct e; eexists; reflexivity.
Qed.

(** How the PRO score map can make the judge fail: a payload dict without
    it names it as the missing field; a value there that is not a dict has
    no [values]; in a dict whose values before it are ints or bools, the
    first value (in the dict's order) that is not a number stops [sum], whose
    message names the int running sum and that value's type (a float before
    it would make the sum a float, outside [Json]). *)
Theorem judge_pro_scores_errors (judge_ai resp : string) (data : Json)
    (Hok : str_in "[ERROR:" resp = false)
    (Hd : parse_judge_response json_loads resp = inr data) :
  (forall kvs, data = JObj kvs -> assoc "pro_scores" kvs = None ->
     judge_from_response json_loads judge_ai resp = JError (missing_field_error "pro_scores")) /\
  (forall x, getitem data "pro_scores" = inr x -> (forall kvs, x <> JObj kvs) ->
     judge_from_response json_loads judge_ai resp =
     JError ("[ERROR: Judge evaluation failed - " ++ sq ++ py_type_name x ++ sq ++
             " object has no attribute 'values']")) /\
  (forall pre k x post, getitem data "pro_scores" = inr (JObj (app pre ((k, x) :: post))) ->
     forallb is_num (map snd pre) = true -> is_num x = false ->
     judge_from_response json_loads judge_ai resp =
     JError ("[ERROR: Judge evaluation failed - unsupported operand type(s) for +: 'int' and " ++
             sq ++ py_type_name x ++ sq ++ "]")).
Proof.
  unfold judge_from_response. rewrite Hok. unfold judge_body. rewrite Hd. cbn [py_bind].
  split; [|split].
  - intros kvs -> Hn. unfold getitem. rewrite Hn. reflexivity.
  - intros x Hx Hno. rewrite Hx. cbn [py_bind].
    destruct x as [| | | | |kvs]; try reflexivity. exfalso. exact (Hno kvs eq_refl).
  - intros pre k x post Hx Hpre Hbad. rewrite Hx. cbn [py_bind dict_values].
    unfold py_sum. rewrite (py_sum_from_first_bad pre post k x 0 Hpre Hbad).
    cbn [py_bind judge_handler]. rewrite !sapp_assoc. reflexivity.
Qed.

End JudgeFailures.
(** ** Beyond the claims: the key pre-check of [app.py] *)

Lemma startswith_excl (s a b : string) :
  startswith s a = true -> startswith s b = true ->
  String.prefix a b = false -> String.prefix b a = false -> False.
Proof.
  unfold startswith. intros Ha Hb Hab Hba.
  destruct (prefix_compat a b s Ha Hb) as [H|H]; congruence.
Qed.

(** Turns every [startswith s q] of the goal other than the one [H] holds
    of into [false]. *)
Ltac only_prefix H :=
  rewrite ?H;
  repeat match goal with
  | |- context [startswith ?s ?q] =>
      let E := fresh "E" in
      destruct (startswith s q) eqn:E;
      [exfalso; exact (startswith_excl _ _ _ H E eq_refl eq_refl) |]
  end.

Section PreCheck.

Variable getenv : string -> option string.

Lemma keys_missing_for_eq (ai : string) :
  keys_missing_for getenv ai =
  match route ai with
  | Some p => if env_set (getenv (provider_key_name p)) then [] else [provider_key_name p]
  | None => []
  end.
Proof.
  unfold keys_missing_for, route. cbn [required_keys flat_map].
  repeat match goal with
  | |- context [startswith ai ?q] =>
      let E := fresh "S" in
      destruct (startswith ai q) eqn:E; [only_prefix E|]
  end;
  cbn [andb orb negb app provider_key_name];
  repeat match goal with
  | |- context [env_set (getenv ?k)] => destruct (env_set (getenv k))
  end; reflexivity.
Qed.

(** For one AI the pre-check reports exactly the credential of the provider
    [get_response] routes it to, when that credential is unset or empty,
    and nothing for an AI no adapter serves: the prefix table of [app.py]
    and the [if/elif] chain of the engine agree. *)
Theorem keys_missing_for_route (ai : string) :
  keys_missing_for getenv ai =
  match route ai with
  | Some p => if env_set (getenv (provider_key_name p)) then [] else [provider_key_name p]
  | None => []
  end.
Proof. exact (keys_missing_for_eq ai). Qed.

Lemma missing_keys_in ai_pro ai_con enable_judging judge_ai enable_audio k :
  In k (missing_keys getenv ai_pro ai_con enable_judging judge_ai enable_audio) <->
  env_set (getenv k) = false /\
  ((enable_audio = true /\ k = "ELEVENLABS_API_KEY") \/
   exists ai p, In ai (ai_pro :: ai_con ::
                       match judge_selected enable_judging judge_ai with
                       | Some j => [j] | None => [] end) /\
                route ai = Some p /\ k = provider_key_name p).
Proof.
  assert (One : forall ai, In k (keys_missing_for getenv ai) <->
            env_set (getenv k) = false /\ exists p, route ai = Some p /\ k = provider_key_name p).
  { intros ai. rewrite keys_missing_for_eq.
    destruct (route ai) as [p|]; split.
    - destruct (env_set (getenv (provider_key_name p))) eqn:E; [intros []|].
      intros [<-|[]]. split; [exact E|]. eauto.
    - intros [E (q & [= <-] & ->)]. rewrite E. left. reflexivity.
    - intros [].
    - intros [_ (q & Hq & _)]. discriminate Hq. }
  unfold missing_keys. rewrite !in_app_iff, !One.
  split.
  - intros [H|[H|[H|H]]].
    + destruct H as [E (p & Hp & ->)]. split; [exact E|]. right.
      exists ai_pro, p. split; [left; reflexivity | split; [exact Hp | reflexivity]].
    + destruct H as [E (p & Hp & ->)]. split; [exact E|]. right.
      exists ai_con, p. split; [right; left; reflexivity | split; [exact Hp | reflexivity]].
    + destruct (judge_selected enable_judging judge_ai) as [j|]; [|destruct H].
      apply One in H. destruct H as [E (p & Hp & ->)]. split; [exact E|]. right.
      exists j, p. split; [right; right; left; reflexivity | split; [exact Hp | reflexivity]].
    + destruct (enable_audio && negb (env_set (getenv "ELEVENLABS_API_KEY"))) eqn:A;
        [|destruct H].
      destruct H as [<-|[]]. apply andb_prop in A as [A E].
      split; [destruct (env_set _); [discriminate | reflexivity]|].
      left. split; [exact A | reflexivity].
  - intros [E [[A ->]|(ai & p & Hin & Hp & ->)]].
    + right. right. right. rewrite A, E. left. reflexivity.
    + destruct Hin as [<-|[<-|Hj]].
      * left. split; [exact E|]. eauto.
      * right. left. split; [exact E|]. eauto.
      * right. right. left.
        destruct (judge_selected enable_judging judge_ai) as [j|]; [|destruct Hj].
        destruct Hj as [<-|[]]. apply One. split; [exact E|]. eauto.
Qed.

(** The whole pre-check lists a credential exactly when it is unset or empty
    and either it is [ELEVENLABS_API_KEY] with audio enabled, or it is the
    credential of the provider a debater, or the selected judge, routes to. *)
Theorem missing_keys_spec ai_pro ai_con enable_judging judge_ai enable_audio k :
  In k (missing_keys getenv ai_pro ai_con enable_judging judge_ai enable_audio) <->
  env_set (getenv k) = false /\
  ((enable_audio = true /\ k = "ELEVENLABS_API_KEY") \/
   exists ai p, In ai (ai_pro :: ai_con ::
                       match judge_selected enable_judging judge_ai with
                       | Some j => [j] | None => [] end) /\
                route ai = Some p /\ k = provider_key_name p).
Proof. exact (missing_keys_in ai_pro ai_con enable_judging judge_ai enable_audio k). Qed.

(** With audio enabled the pre-check never asks for [GOOGLE_API_KEY], the
    credential [generate_audio] reads, unless a debater or the selected
    judge is a Gemini model; and it never asks for [ANTHROPIC_API_KEY], which
    [generate_summary] always needs, unless one of them is a Claude model. *)
Theorem missing_keys_google_anthropic ai_pro ai_con enable_judging judge_ai enable_audio :
  let parties := ai_pro :: ai_con ::
                 match judge_selected enable_judging judge_ai with
                 | Some j => [j] | None => [] end in
  (In "GOOGLE_API_KEY" (missing_keys getenv ai_pro ai_con enable_judging judge_ai enable_audio) ->
   exists ai, In ai parties /\ route ai = Some PGemini) /\
  (In "ANTHROPIC_API_KEY" (missing_keys getenv ai_pro ai_con enable_judging judge_ai enable_audio) ->
   exists ai, In ai parties /\ route ai = Some PClaude).
Proof.
  cbn zeta. split; intros H;
    apply missing_keys_in in H as [_ [[_ H]|(ai & p & Hin & Hp & Hk)]];
    try discriminate H;
    exists ai; (split; [exact Hin|]); rewrite Hp; destruct p; try discriminate Hk; reflexivity.
Qed.

End PreCheck.
(** ** Beyond the claims: the CSV export *)

Lemma las_app (a b : string) :
  list_ascii_of_string (a ++ b) = app (list_ascii_of_string a) (list_ascii_of_string b).
Proof. induction a as [|c a IH]; simpl; [reflexivity | now rewrite IH]. Qed.

Lemma concat_empty_cons (a : string) (l : list string) :
  String.concat "" (a :: l) = a ++ String.concat "" l.
Proof. destruct l; [symmetry; apply sapp_nil_r | reflexivity]. Qed.

Lemma csv_special_false (c : ascii) :
  csv_special c = false ->
  Ascii.eqb c ","%char = false /\ Ascii.eqb c (ascii_of_nat 34) = false /\
  Ascii.eqb c cr = false /\ Ascii.eqb c lf = false.
Proof.
  unfold csv_special. intros H.
  repeat rewrite orb_false_iff in H. tauto.
Qed.

Lemma csv_text_string (s : string) : csv_text (rev (list_ascii_of_string s)) = s.
Proof. unfold csv_text. rewrite rev_involutive. apply string_of_list_ascii_of_string. Qed.

Lemma bare_scan (fields : list string) (s : list ascii) :
  forall acc rest, forallb (fun c => negb (csv_special c)) s = true ->
  csv_lex (Bare acc) fields (app s rest) = csv_lex (Bare (app (rev s) acc)) fields rest.
Proof.
  induction s as [|c s IH]; intros acc rest H; [reflexivity|].
  cbn [forallb] in H. apply andb_prop in H as [Hc H].
  apply negb_true_iff, csv_special_false in Hc as (H1 & H2 & H3 & H4).
  cbn [app csv_lex]. rewrite H3, H1, H2, H4.
  rewrite IH by exact H. cbn [rev]. rewrite <- app_assoc. reflexivity.
Qed.

Lemma quoted_scan (fields : list string) (s : string) :
  forall acc rest,
  csv_lex (Quoted acc) fields
    (app (list_ascii_of_string (double_quotes s)) (ascii_of_nat 34 :: rest)) =
  csv_lex (QuoteSeen (app (rev (list_ascii_of_string s)) acc)) fields rest.
Proof.
  induction s as [|c s IH]; intros acc rest; [reflexivity|].
  cbn [double_quotes]. destruct (Ascii.eqb c (ascii_of_nat 34)) eqn:E.
  - apply Ascii.eqb_eq in E. subst c.
    cbn [list_ascii_of_string app csv_lex]. cbn - [rev]. rewrite IH.
    cbn [list_ascii_of_string rev]. rewrite <- app_assoc. reflexivity.
  - cbn [list_ascii_of_string app csv_lex]. rewrite E. rewrite IH.
    cbn [list_ascii_of_string rev]. rewrite <- app_assoc. reflexivity.
Qed.

(** Reading one written field leaves a state that closes it as [s]. *)
Lemma field_read (st : CsvState) (fields : list string) (s : string) (rest : list ascii) :
  (st = RowStart \/ st = FieldStart) ->
  exists st', csv_lex st fields (app (list_ascii_of_string (csv_field s)) rest) =
              csv_lex st' fields rest /\
    close_field st' fields = s :: fields /\
    ((st' = st /\ s = "") \/ (exists acc, st' = Bare acc) \/ (exists acc, st' = QuoteSeen acc)).
Proof.
  intros Hst. unfold csv_field.
  destruct (existsb csv_special (list_ascii_of_string s)) eqn:Q.
  - exists (QuoteSeen (rev (list_ascii_of_string s))).
    split; [|split; [cbn [close_field]; rewrite csv_text_string; reflexivity | right; right; eauto]].
    unfold dq. rewrite !las_app. cbn [list_ascii_of_string app]. rewrite <- app_assoc.
    cbn [app].
    destruct Hst as [-> | ->]; cbn [csv_lex]; cbn - [csv_lex double_quotes rev];
      rewrite quoted_scan, app_nil_r; reflexivity.
  - destruct s as [|c s'].
    + exists st. split; [reflexivity|]. split; [destruct Hst as [-> | ->]; reflexivity|].
      left. split; reflexivity.
    + cbn [list_ascii_of_string existsb] in Q. apply orb_false_iff in Q as [Qc Q].
      apply csv_special_false in Qc as (H1 & H2 & H3 & H4).
      assert (Hs' : forallb (fun c => negb (csv_special c)) (list_ascii_of_string s') = true).
      { rewrite forallb_forall. intros x Hx. apply negb_true_iff.
        destruct (csv_special x) eqn:E; [|reflexivity].
        exfalso. assert (existsb csv_special (list_ascii_of_string s') = true)
          by (apply existsb_exists; eauto). congruence. }
      exists (Bare (app (rev (list_ascii_of_string s')) [c])).
      split; [|split; [|right; left; eauto]].
      * cbn [list_ascii_of_string app].
        destruct Hst as [-> | ->]; cbn [csv_lex]; rewrite H3, H1, H2, H4;
          apply bare_scan; exact Hs'.
      * cbn [close_field]. unfold csv_text. rewrite rev_app_distr, rev_involutive.
        cbn [rev app string_of_list_ascii]. rewrite string_of_list_ascii_of_string.
        reflexivity.
Qed.

Lemma close_comma (st : CsvState) (fields : list string) (rest : list ascii) :
  (forall acc, st <> Quoted acc) ->
  csv_lex st fields (","%char :: rest) = csv_lex FieldStart (close_field st fields) rest.
Proof. intros H. destruct st; try reflexivity. exfalso. exact (H acc eq_refl). Qed.

Lemma close_crlf (st : CsvState) (fields : list string) (rest : list ascii) :
  (forall acc, st <> Quoted acc) -> st <> RowStart ->
  csv_lex st fields (cr :: lf :: rest) =
  option_map (cons (rev (close_field st fields))) (csv_lex RowStart [] rest).
Proof.
  intros H H'. destruct st; try reflexivity.
  - exfalso. exact (H' eq_refl).
  - exfalso. exact (H acc eq_refl).
Qed.

Lemma cells_row (cs : list string) :
  forall st fields c1 rest,
  (st = RowStart \/ st = FieldStart) -> (st = FieldStart \/ cs <> [] \/ c1 <> "") ->
  csv_lex st fields
    (app (list_ascii_of_string (String.concat "," (map csv_field (c1 :: cs)))) (cr :: lf :: rest)) =
  option_map (cons (app (rev fields) (c1 :: cs))) (csv_lex RowStart [] rest).
Proof.
  induction cs as [|c2 cs IH]; intros st fields c1 rest Hst Hne.
  - cbn [map]. unfold String.concat.
    destruct (field_read st fields c1 (cr :: lf :: rest) Hst) as (st' & E & C & K).
    rewrite E, close_crlf, C.
    + cbn [rev]. reflexivity.
    + destruct K as [[-> _]|[[acc ->]|[acc ->]]]; [destruct Hst as [-> | ->]| |];
        intros a Ha; discriminate Ha.
    + destruct K as [[-> ->]|[[acc ->]|[acc ->]]]; try discriminate.
      destruct Hne as [->|[H|H]]; [discriminate | contradiction | contradiction].
  - change (String.concat "," (map csv_field (c1 :: c2 :: cs)))
      with (csv_field c1 ++ "," ++ String.concat "," (map csv_field (c2 :: cs))).
    rewrite !las_app, <- app_assoc. cbn [list_ascii_of_string app].
    destruct (field_read st fields c1
                (","%char :: app (list_ascii_of_string (String.concat "," (map csv_field (c2 :: cs))))
                   (cr :: lf :: rest)) Hst) as (st' & E & C & K).
    rewrite E, close_comma, C.
    + rewrite (IH FieldStart (c1 :: fields) c2 rest) by first [right; reflexivity | left; reflexivity].
      cbn [rev]. rewrite <- app_assoc. reflexivity.
    + destruct K as [[-> _]|[[acc ->]|[acc ->]]]; [destruct Hst as [-> | ->]| |];
        intros a Ha; discriminate Ha.
Qed.

Lemma csv_writerow_lex (fields : list Json) (rest : list ascii) :
  csv_lex RowStart [] (app (list_ascii_of_string (csv_writerow fields)) rest) =
  option_map (cons (map csv_cell fields)) (csv_lex RowStart [] rest).
Proof.
  unfold csv_writerow. destruct (map csv_cell fields) as [|c1 cs] eqn:M.
  - reflexivity.
  - assert (Gen : c1 <> "" \/ cs <> [] ->
              csv_lex RowStart []
                (app (list_ascii_of_string (String.concat "," (map csv_field (c1 :: cs)) ++ crlf)) rest) =
              option_map (cons (c1 :: cs)) (csv_lex RowStart [] rest)).
    { intros Hne. rewrite las_app, <- app_assoc. cbn [crlf list_ascii_of_string app].
      apply (cells_row cs RowStart [] c1 rest); [left; reflexivity|].
      right. destruct Hne as [H|H]; [right|left]; exact H. }
    destruct c1 as [|a c1']; [destruct cs as [|c2 cs]|].
    + reflexivity.
    + apply Gen. right. discriminate.
    + apply Gen. left. discriminate.
Qed.

Lemma csv_rows_roundtrip (rows : list (list Json)) :
  csv_parse (String.concat "" (map csv_writerow rows)) = Some (map (map csv_cell) rows).
Proof.
  unfold csv_parse. induction rows as [|r rows IH]; [reflexivity|].
  cbn [map]. rewrite concat_empty_cons, las_app, csv_writerow_lex, IH. reflexivity.
Qed.

(** What [csv.writer] writes is read back, by the RFC 4180 rules, as the
    rows written, each cell as [str] of its value ([None] as an empty
    cell): commas, quotes and line breaks inside a cell survive, and an
    empty row and a row of one empty cell stay apart. *)
Theorem csv_writer_roundtrip (rows : list (list Json)) :
  csv_parse (String.concat "" (map csv_writerow rows)) = Some (map (map csv_cell) rows).
Proof. exact (csv_rows_roundtrip rows). Qed.

(** The CSV export reads back as six header rows (title, topic, mode,
    timestamp, an empty row, the column titles), then for each round a PRO
    row and a CON row holding the round number, the side, the AI and the
    full argument text, then the judge's rows only when there is a verdict. *)
Theorem csv_export_decodes now debate_log topic mode summary judging :
  csv_parse (create_csv_export now debate_log topic mode summary judging) =
  Some (app [["AI Debate Arena Export"]; ["Topic"; topic]; ["Mode"; mode];
             ["Timestamp"; now]; []; ["Round"; "Position"; "AI System"; "Argument"]]
       (app (flat_map (fun e => [[str_Z (round e); "PRO"; pro_ai e; pro_response e];
                                 [str_Z (round e); "CON"; con_ai e; con_response e]])
                      debate_log)
            (match judging with
             | Some (JVerdict v) => map (map csv_cell) (csv_judge_rows v)
             | _ => []
             end))).
Proof.
  unfold create_csv_export. rewrite csv_rows_roundtrip. f_equal.
  unfold csv_export_rows. rewrite !map_app. f_equal. f_equal.
  - induction debate_log as [|e log IH]; [reflexivity|].
    cbn [flat_map]. rewrite map_app, IH. reflexivity.
  - destruct judging as [[v|m]|]; reflexivity.
Qed.
(** ** The TXT export *)

Lemma py_str_items_ok (i : Z) (xs : list Json) :
  match py_str_items i xs with inl _ => false | inr _ => true end = forallb is_jstr xs.
Proof.
  revert i. induction xs as [|x xs IH]; intros i; [reflexivity|].
  destruct x; cbn [py_str_items forallb is_jstr andb]; try reflexivity.
  rewrite <- (IH (i + 1)%Z). destruct (py_str_items (i + 1)%Z xs); reflexivity.
Qed.

Lemma py_join_nl_ok (xs : list Json) :
  match py_join_nl xs with inl _ => false | inr _ => true end = forallb is_jstr xs.
Proof.
  unfold py_join_nl. rewrite <- (py_str_items_ok 0).
  destruct (py_str_items 0 xs); reflexivity.
Qed.

Lemma forallb_is_jstr_map (l : list string) : forallb is_jstr (map JStr l) = true.
Proof. induction l as [|a l IH]; [reflexivity | exact IH]. Qed.

Lemma forallb_false_in {A : Type} (f : A -> bool) (x : A) (l : list A) :
  In x l -> f x = false -> forallb f l = false.
Proof.
  induction l as [|y l IH]; intros Hin Hx; [destruct Hin|].
  destruct Hin as [<-|Hin]; cbn [forallb]; [rewrite Hx; reflexivity|].
  rewrite (IH Hin Hx). apply andb_false_r.
Qed.

Lemma txt_score_row_spec (label : string) (p c : Json) :
  match txt_score_row label p c with
  | inl _ => formattable p && formattable c = false
  | inr r => formattable p = true /\ formattable c = true /\ exists s, r = JStr s
  end.
Proof. destruct p, c; cbn; eauto. Qed.

Lemma txt_judge_spec (v : Verdict) :
  match txt_judge v with
  | inl _ => forallb formattable (app (sheet_values (v_pro v)) (sheet_values (v_con v))) = false
  | inr lines =>
      forallb formattable (app (sheet_values (v_pro v)) (sheet_values (v_con v))) = true /\
      exists A B C, lines = app (map JStr A) (v_commentary v :: app (map JStr B) (v_verdict v :: map JStr C))
  end.
Proof.
  unfold txt_judge. cbn zeta.
  repeat lazymatch goal with
  | |- context [py_bind (txt_score_row ?l ?p ?c) _] =>
      let S := fresh "S" in
      pose proof (txt_score_row_spec l p c) as S;
      destruct (txt_score_row l p c) as [e|r]; cbn [py_bind];
      [ first [ cbn in S; discriminate S
              | apply andb_false_iff in S; destruct S as [S|S];
                (eapply forallb_false_in; [|exact S]);
                cbn [sheet_values app In]; repeat (first [left; reflexivity | right]) ]
      | destruct S as [? [? [? ->]]] ]
  end.
  split.
  - cbn [sheet_values app forallb].
    repeat match goal with H : formattable _ = true |- _ => rewrite H; clear H end.
    reflexivity.
  - eexists (_ :: _ :: _ :: _ :: _ :: _ :: _ :: _ :: _ :: _ :: _ :: _ :: _ :: _ :: _ :: _ ::
             _ :: _ :: _ :: []).
    exists [""; "VERDICT:"; dash80], [""; eq80]. reflexivity.
Qed.

Lemma txt_rounds_strs (debate_log : list Turn) :
  flat_map txt_round debate_log =
  map JStr (flat_map (fun e => ["ROUND " ++ str_Z (round e); dash80;
                                "PRO (" ++ pro_ai e ++ "):"; pro_response e; "";
                                "CON (" ++ con_ai e ++ "):"; con_response e; "";
                                eq80; ""]) debate_log).
Proof.
  induction debate_log as [|e log IH]; [reflexivity|].
  cbn [flat_map]. rewrite map_app, IH. reflexivity.
Qed.

Lemma txt_export_ok now debate_log topic mode kvs s judging
  (Hs : assoc "summary" kvs = Some (JStr s)) :
  match create_txt_export now debate_log topic mode (Some kvs) judging with
  | inl _ => false
  | inr _ => true
  end = txt_judging_ok judging.
Proof.
  assert (Hsum : txt_summary (Some kvs) = map JStr ["DEBATE SUMMARY"; eq80; s; ""; eq80; ""]).
  { destruct kvs as [|kv kvs']; [discriminate Hs|]. cbn [txt_summary]. rewrite Hs. reflexivity. }
  assert (Hall : forall lines,
            forallb is_jstr (app (txt_header now debate_log topic mode)
              (app (flat_map txt_round debate_log) (app (txt_summary (Some kvs)) lines))) =
            forallb is_jstr lines).
  { intros lines. unfold txt_header. rewrite txt_rounds_strs, Hsum, !forallb_app,
      !forallb_is_jstr_map. reflexivity. }
  unfold create_txt_export.
  destruct judging as [[v|m]|]; cbn [py_bind txt_judging_ok].
  - pose proof (txt_judge_spec v) as J. destruct (txt_judge v) as [e|lines]; cbn [py_bind].
    + rewrite J. reflexivity.
    + destruct J as [Jok [A [B [C ->]]]]. rewrite Jok, py_join_nl_ok, Hall, forallb_app,
        forallb_is_jstr_map. cbn [forallb]. rewrite forallb_app. cbn [forallb].
      rewrite !forallb_is_jstr_map.
      destruct (is_jstr (v_commentary v)), (is_jstr (v_verdict v)); reflexivity.
  - rewrite py_join_nl_ok, Hall. reflexivity.
  - rewrite py_join_nl_ok, Hall. reflexivity.
Qed.

(** With a summary dict whose ["summary"] is a string, as [generate_summary]
    returns it, [create_txt_export] raises exactly when the judging result is
    a verdict with a score [format] refuses (a [None], list or dict) or a
    commentary or verdict that is not a string; it never raises without a
    verdict. *)
Theorem create_txt_export_raises now debate_log topic mode kvs s judging
  (Hs : assoc "summary" kvs = Some (JStr s)) :
  match create_txt_export now debate_log topic mode (Some kvs) judging with
  | inl _ => false
  | inr _ => true
  end = txt_judging_ok judging.
Proof. exact (txt_export_ok now debate_log topic mode kvs s judging Hs). Qed.

(** When [create_txt_export] succeeds, its text is the nine header lines
    (the topic, the mode, the date and the number of rounds among them),
    then ten lines for each turn in order, holding the PRO and CON model
    names and their full texts, then the summary and judge lines. *)
Theorem create_txt_export_layout now debate_log topic mode summary judging txt :
  create_txt_export now debate_log topic mode summary judging = inr txt ->
  exists rest,
    txt = join_nl (app [eq80; "AI DEBATE ARENA - DEBATE TRANSCRIPT"; eq80; "Topic: " ++ topic;
                        "Mode: " ++ mode; "Date: " ++ now;
                        "Total Rounds: " ++ str_Z (Z.of_nat (length debate_log)); eq80; ""]
                  (app (flat_map (fun e => ["ROUND " ++ str_Z (round e); dash80;
                                            "PRO (" ++ pro_ai e ++ "):"; pro_response e; "";
                                            "CON (" ++ con_ai e ++ "):"; con_response e; "";
                                            eq80; ""]) debate_log)
                       rest)).
Proof.
  unfold create_txt_export. intros H.
  destruct (match judging with Some (JVerdict v) => txt_judge v | _ => inr [] end)
    as [e|lines]; cbn [py_bind] in H; [discriminate H|].
  unfold py_join_nl in H.
  destruct (py_str_items 0 _) as [e|ss] eqn:E; cbn [py_bind] in H; [discriminate H|].
  injection H as <-. apply py_str_items_inr in E.
  unfold txt_header in E. rewrite txt_rounds_strs, app_assoc, <- map_app in E.
  destruct (map_JStr_app_inv ss _ _ (eq_sym E)) as [rest [-> _]].
  exists rest. rewrite app_assoc. reflexivity.
Qed.

(** ** The narration request of [generate_audio] *)

(** [generate_audio] sends at most one request to the Text-to-Speech
    service and only appends to the request history: it sends one exactly
    when the library is installed, [GOOGLE_API_KEY] is set and not empty,
    and every summary and judge item joined into the script is a string. *)
Theorem generate_audio_request_count tts_installed google_api_key tts topic debate_log mode
    summary judging ai_pro ai_con h :
  exists calls,
    snd (generate_audio tts_installed google_api_key tts topic debate_log mode summary judging
           ai_pro ai_con h) = app h calls /\
    length calls =
      (if tts_installed &&
          match google_api_key with Some (String _ _) => true | _ => false end &&
          forallb is_jstr (app (summary_parts summary) (judge_parts judging))
       then 1 else 0)%nat.
Proof.
  unfold generate_audio.
  destruct tts_installed; cbn [negb andb]; [|exists []; rewrite app_nil_r; split; reflexivity].
  destruct google_api_key as [[|a k]|]; cbn [andb];
    [exists []; rewrite app_nil_r; split; reflexivity| |
     exists []; rewrite app_nil_r; split; reflexivity].
  pose proof (py_join_nl_ok (audio_script topic debate_log mode summary judging ai_pro ai_con))
    as J.
  unfold audio_script in J at 2. rewrite forallb_app, forallb_is_jstr_map in J.
  cbn [andb] in J. rewrite <- J.
  destruct (py_join_nl _) as [e|full]; cbn [snd].
  - exists []. rewrite app_nil_r. split; reflexivity.
  - destruct (tts h _); cbn [snd]; eexists; split; reflexivity.
Qed.

(** ** The JSON export's characters *)

Lemma json_text_ok_app (a b : string) :
  json_text_ok (a ++ b) = json_text_ok a && json_text_ok b.
Proof. unfold json_text_ok. rewrite las_app. apply forallb_app. Qed.

Lemma json_text_ok_uint (d : Decimal.uint) : json_text_ok (NilEmpty.string_of_uint d) = true.
Proof.
  induction d; cbn [NilEmpty.string_of_uint]; unfold json_text_ok in *; cbn; first [reflexivity | exact IHd].
Qed.

Lemma json_text_ok_str_Z (n : Z) : json_text_ok (str_Z n) = true.
Proof.
  unfold str_Z, NilZero.string_of_int, NilZero.string_of_uint.
  destruct (Z.to_int n) as [d|d]; destruct d; try reflexivity;
    first [ apply json_text_ok_uint
          | unfold json_text_ok in *; cbn [list_ascii_of_string forallb];
            apply json_text_ok_uint ].
Qed.

Lemma json_text_ok_repeat (s : string) (n : nat) :
  json_text_ok s = true -> json_text_ok (str_repeat s n) = true.
Proof.
  intros Hs. induction n as [|n IH]; [reflexivity|].
  cbn [str_repeat]. rewrite json_text_ok_app, Hs, IH. reflexivity.
Qed.

Lemma json_text_ok_hex2 (n : nat) : (n < 256)%nat -> json_text_ok (hex2 n) = true.
Proof.
  intros Hn.
  assert (Hd : forall k, (k < 16)%nat -> json_char_ok (hex_digit k) = true).
  { intros k Hk. do 16 (destruct k as [|k]; [reflexivity|]). lia. }
  unfold json_text_ok, hex2. cbn [list_ascii_of_string forallb].
  rewrite !Hd; [reflexivity | apply Nat.mod_upper_bound; discriminate |].
  apply Nat.Div0.div_lt_upper_bound. lia.
Qed.

Lemma json_text_ok_escape (s : string) : json_text_ok (json_escape s) = true.
Proof.
  induction s as [|c s IH]; [reflexivity|].
  cbn [json_escape]. rewrite json_text_ok_app, IH, andb_true_r.
  destruct (nat_of_ascii c =? 92)%nat; [reflexivity|].
  destruct (nat_of_ascii c =? 34)%nat; [reflexivity|].
  destruct (nat_of_ascii c =? 8)%nat; [reflexivity|].
  destruct (nat_of_ascii c =? 12)%nat; [reflexivity|].
  destruct (nat_of_ascii c =? 10)%nat; [reflexivity|].
  destruct (nat_of_ascii c =? 13)%nat; [reflexivity|].
  destruct (nat_of_ascii c =? 9)%nat; [reflexivity|].
  destruct ((32 <=? nat_of_ascii c) && (nat_of_ascii c <=? 126))%nat eqn:Hp.
  - unfold json_text_ok, json_char_ok. cbn [list_ascii_of_string forallb].
    rewrite Hp, orb_true_r. reflexivity.
  - rewrite json_text_ok_app, json_text_ok_hex2; [reflexivity|].
    apply nat_ascii_bounded.
Qed.

Lemma json_text_ok_concat (sep : string) (l : list string) :
  json_text_ok sep = true -> Forall (fun x => json_text_ok x = true) l ->
  json_text_ok (String.concat sep l) = true.
Proof.
  intros Hsep Hl. induction Hl as [|x l Hx Hl IH]; [reflexivity|].
  destruct l as [|y l]; [exact Hx|].
  change (String.concat sep (x :: y :: l)) with (x ++ sep ++ String.concat sep (y :: l)).
  rewrite !json_text_ok_app, Hx, Hsep, IH. reflexivity.
Qed.

Lemma json_text_ok_indent (level : nat) : json_text_ok (json_indent level) = true.
Proof.
  unfold json_indent. rewrite json_text_ok_app, json_text_ok_repeat; reflexivity.
Qed.

Lemma json_text_ok_dumps_at : forall (x : Json) (level : nat), json_text_ok (json_dumps_at level x) = true.
Proof.
  fix IH 1. intros [|b|n|s|xs|kvs] level.
  - reflexivity.
  - destruct b; reflexivity.
  - apply json_text_ok_str_Z.
  - unfold json_dumps_at, json_quote. rewrite !json_text_ok_app, json_text_ok_escape. reflexivity.
  - assert (Hxs : Forall (fun y => forall l, json_text_ok (json_dumps_at l y) = true) xs).
    { revert xs. refine (fix go (l : list Json) := match l with
                          | [] => Forall_nil _
                          | y :: ys => Forall_cons _ (IH y) (go ys)
                          end). }
    destruct xs as [|y ys]; [reflexivity|].
    cbn [json_dumps_at]. fold (json_dumps_at (S level)).
    rewrite !json_text_ok_app, !json_text_ok_indent, json_text_ok_concat; [reflexivity| |].
    + rewrite json_text_ok_app, json_text_ok_indent. reflexivity.
    + apply Forall_map. eapply Forall_impl; [|exact Hxs]. intros z Hz. apply Hz.
  - assert (Hkvs : Forall (fun kv => forall l, json_text_ok (json_dumps_at l (snd kv)) = true) kvs).
    { revert kvs. refine (fix go (l : list (string * Json)) := match l with
                          | [] => Forall_nil _
                          | kv :: r => Forall_cons _
                              (match kv as p return (forall l, json_text_ok (json_dumps_at l (snd p)) = true)
                               with (k, v) => IH v end) (go r)
                          end). }
    destruct kvs as [|kv r]; [reflexivity|].
    cbn [json_dumps_at]. fold (json_dumps_at (S level)).
    rewrite !json_text_ok_app, !json_text_ok_indent, json_text_ok_concat; [reflexivity| |].
    + rewrite json_text_ok_app, json_text_ok_indent. reflexivity.
    + apply Forall_map. eapply Forall_impl; [|exact Hkvs]. intros [k v] Hv.
      unfold json_quote. rewrite !json_text_ok_app, json_text_ok_escape. apply (Hv (S level)).
Qed.

(** Whatever the topic, the model texts, the summary or the judge's values
    hold, the JSON export written by [create_json_export] consists only of
    newlines and printable ASCII characters: every other character is
    written as an escape. *)
Theorem create_json_export_ascii now debate_log topic mode summary judging :
  json_text_ok (create_json_export now debate_log topic mode summary judging) = true.
Proof. apply json_text_ok_dumps_at. Qed.

(** ** The click handler of [app.py] *)

Section AppFlow.

Variable vendor : list Call -> Call -> VendorOutcome.
Variable key_present : Provider -> bool.
Variable json_loads : string -> Py Json.
Variable tts_installed : bool.
Variable tts : list SynthCall -> SynthCall -> TtsOutcome.
Variable getenv : string -> option string.
Variable now : string.

Lemma generate_summary_str topic debate_log mode w :
  exists t, assoc "summary" (fst (generate_summary vendor key_present topic debate_log mode w)) =
            Some (JStr t).
Proof.
  unfold generate_summary.
  destruct (adapter vendor key_present PClaude summary_model _ 300 (net w)) as [t h].
  exists t. reflexivity.
Qed.

(** When the keys are all there but some turn of the debate holds an error
    string, the run goes on to the summary and the three exports but skips
    the judge (no request after the summary's) and the audio (no speech
    request): the result has no judging and no audio, and cannot crash. *)
Theorem app_run_errors_skip_judge_audio topic ai_pro ai_con rounds word_limit mode
    enable_judging judge_ai enable_audio w th
  (Hk : missing_keys getenv ai_pro ai_con enable_judging judge_ai enable_audio = [])
  (He : has_errors (fst (run_debate vendor key_present topic ai_pro ai_con rounds word_limit
                           mode w)) = true) :
  let R := run_debate vendor key_present topic ai_pro ai_con rounds word_limit mode w in
  let S := generate_summary vendor key_present topic (fst R) mode (snd R) in
  exists txt_data,
    app_run vendor key_present json_loads tts_installed tts getenv now topic ai_pro ai_con
      rounds word_limit mode enable_judging judge_ai enable_audio w th =
    (AppDone (fst R) (fst S) None
       (create_csv_export now (fst R) topic mode (Some (fst S)) None)
       (create_json_export now (fst R) topic mode (Some (fst S)) None) txt_data None,
     snd S, th).
Proof.
  cbn zeta. unfold app_run. rewrite Hk.
  destruct (run_debate vendor key_present topic ai_pro ai_con rounds word_limit mode w)
    as [log w1]. cbn [fst snd] in *. rewrite He.
  pose proof (generate_summary_str topic log mode w1) as [t Ht].
  destruct (generate_summary vendor key_present topic log mode w1) as [summ w2].
  cbn [fst snd] in *.
  pose proof (txt_export_ok now log topic mode summ t None Ht) as X.
  cbn [txt_judging_ok] in X.
  destruct (judge_selected enable_judging judge_ai); cbn [negb];
    (destruct (create_txt_export now log topic mode (Some summ) None) as [e|txt];
     [discriminate X|]; exists txt; rewrite andb_false_r; reflexivity).
Qed.

(** The run ends in the outer [except] (a crash after the debate, the
    summary and the judge have run) only when the debate had no error, a
    judge was selected, and its verdict has a score [format] refuses or a
    commentary or verdict that is not a string; no speech request is made
    then. *)
Theorem app_run_crash_cause topic ai_pro ai_con rounds word_limit mode
    enable_judging judge_ai enable_audio w th :
  let R := run_debate vendor key_present topic ai_pro ai_con rounds word_limit mode w in
  let S := generate_summary vendor key_present topic (fst R) mode (snd R) in
  let r := app_run vendor key_present json_loads tts_installed tts getenv now topic ai_pro ai_con
             rounds word_limit mode enable_judging judge_ai enable_audio w th in
  match fst (fst r) with
  | AppCrashed _ =>
      snd r = th /\ has_errors (fst R) = false /\
      exists j v,
        judge_selected enable_judging judge_ai = Some j /\
        fst (judge_debate vendor key_present json_loads topic (fst R) mode j ai_pro ai_con
               (snd S)) = JVerdict v /\
        txt_judging_ok (Some (JVerdict v)) = false
  | _ => True
  end.
Proof.
  cbn zeta. unfold app_run.
  destruct (missing_keys getenv ai_pro ai_con enable_judging judge_ai enable_audio)
    as [|m ms]; [|exact I].
  destruct (run_debate vendor key_present topic ai_pro ai_con rounds word_limit mode w)
    as [log w1]. cbn [fst snd].
  pose proof (generate_summary_str topic log mode w1) as [t Ht].
  destruct (generate_summary vendor key_present topic log mode w1) as [summ w2].
  cbn [fst snd] in *.
  destruct (judge_selected enable_judging judge_ai) as [j|] eqn:Js;
    [destruct (has_errors log) eqn:He; cbn [negb]|].
  - pose proof (txt_export_ok now log topic mode summ t None Ht) as X.
    cbn [txt_judging_ok] in X.
    destruct (create_txt_export now log topic mode (Some summ) None); [discriminate X|].
    destruct (enable_audio && false); [destruct (generate_audio _ _ _ _ _ _ _ _ _ _ _)|];
      exact I.
  - destruct (judge_debate vendor key_present json_loads topic log mode j ai_pro ai_con w2)
      as [o w3] eqn:Jd.
    pose proof (txt_export_ok now log topic mode summ t (Some o) Ht) as X.
    destruct (create_txt_export now log topic mode (Some summ) (Some o)) as [e|txt].
    + cbn [fst snd]. split; [reflexivity|]. split; [reflexivity|].
      destruct o as [v|msg]; [|discriminate X].
      exists j, v. split; [reflexivity|]. split; [rewrite Jd; reflexivity|]. symmetry. exact X.
    + destruct (enable_audio && true); [destruct (generate_audio _ _ _ _ _ _ _ _ _ _ _)|];
        exact I.
  - pose proof (txt_export_ok now log topic mode summ t None Ht) as X.
    cbn [txt_judging_ok] in X.
    destruct (create_txt_export now log topic mode (Some summ) None); [discriminate X|].
    destruct (enable_audio && negb (has_errors log));
      [destruct (generate_audio _ _ _ _ _ _ _ _ _ _ _)|]; exact I.
Qed.

End AppFlow.

(** ** Concrete runs *)

(** Witness of C1: a three-round run. *)
Lemma run_debate_rounds_witness :
  (1 <= 3)%Z /\
  length (fst (run_debate len_vendor all_keys "X" "claude" "gpt" 3 50 "Adversarial" world0)) = 3%nat.
Proof.
  split; [lia|].
  pose proof (run_debate_rounds len_vendor all_keys "X" "claude" "gpt" 3 50 "Adversarial"
                world0 ltac:(lia)) as H.
  cbv zeta in H. destruct H as [L _]. exact L.
Defined.

(** Witness of C3: CON fails in round 2 of a three-round run. *)
Lemma run_debate_single_failure_witness :
  route "claude" = Some PClaude /\ checks_key PClaude && negb (all_keys PClaude) = false /\
  route "gpt" = Some POpenAI /\ checks_key POpenAI && negb (all_keys POpenAI) = false /\
  (1 <= 2)%nat /\ (Z.of_nat 2 <= 3)%Z /\
  exists t,
    nth_error (fst (run_debate (fail_at 3 "timeout" len_vendor) all_keys "X" "claude" "gpt"
                      3 50 "Adversarial" world0)) 1 = Some t /\
    con_response t = adapter_error POpenAI "timeout".
Proof.
  do 4 (split; [reflexivity|]). split; [lia|]. split; [lia|].
  pose proof (run_debate_single_failure all_keys "claude" "gpt" PClaude POpenAI
                eq_refl eq_refl eq_refl eq_refl len_vendor "X" 3 50 "Adversarial" world0
                2 SCon "timeout" ltac:(lia) ltac:(lia)) as H.
  cbv zeta in H. destruct H as (_ & _ & H & _). exact H.
Defined.

(** C3 counterexample: with a vendor whose answer depends on the prompt,
    CON failing in round 2 changes the PRO text of round 3, whose prompt now
    quotes the error string. *)
Lemma run_debate_failure_changes_later_turn :
  con_response (nth 1 (fst (run_debate (fail_at 3 "timeout" len_vendor) all_keys "X"
                  "claude" "gpt" 3 50 "Adversarial" world0)) (mkTurn 0 "" "" "" "")) =
    adapter_error POpenAI "timeout" /\
  pro_response (nth 2 (fst (run_debate (fail_at 3 "timeout" len_vendor) all_keys "X"
                  "claude" "gpt" 3 50 "Adversarial" world0)) (mkTurn 0 "" "" "" "")) <>
  pro_response (nth 2 (fst (run_debate len_vendor all_keys "X"
                  "claude" "gpt" 3 50 "Adversarial" world0)) (mkTurn 0 "" "" "" "")).
Proof. split; [vm_compute; reflexivity | vm_compute; discriminate]. Qed.

(** C8 counterexample: the round-2 PRO prompts of two runs that differ only
    in mode do not share the text before their instructions. *)
Lemma run_debate_mode_prompts_differ :
  ~ (forall i a1 a2,
      nth_error (asks (snd (run_debate len_vendor all_keys "X" "claude" "gpt" 2 50
                              "Truth-Seeking" world0))) i = Some a1 ->
      nth_error (asks (snd (run_debate len_vendor all_keys "X" "claude" "gpt" 2 50
                              "Adversarial" world0))) i = Some a2 ->
      exists base, ask_prompt a1 = base ++ instruction_suffix "Truth-Seeking" /\
                   ask_prompt a2 = base ++ instruction_suffix "Adversarial").
Proof.
  intros H.
  destruct (H 2%nat
    (nth 2 (asks (snd (run_debate len_vendor all_keys "X" "claude" "gpt" 2 50
                         "Truth-Seeking" world0))) (mkAsk "" "" 0))
    (nth 2 (asks (snd (run_debate len_vendor all_keys "X" "claude" "gpt" 2 50
                         "Adversarial" world0))) (mkAsk "" "" 0)))
    as [base [H1 H2]]; [vm_compute; reflexivity | vm_compute; reflexivity |].
  apply strip_suffix in H1, H2. rewrite H1 in H2. vm_compute in H2. discriminate H2.
Qed.

(** Witness of C10: a mode spelled without the hyphen. *)
Lemma run_debate_mode_unvalidated_witness :
  "TruthSeeking" <> "Truth-Seeking" /\
  run_debate len_vendor all_keys "X" "claude" "gpt" 2 50 "TruthSeeking" world0 =
  run_debate len_vendor all_keys "X" "claude" "gpt" 2 50 "Adversarial" world0.
Proof.
  split; [discriminate|].
  destruct (run_debate_mode_unvalidated len_vendor all_keys "X" "claude" "gpt" 2 50
              "TruthSeeking" world0 ltac:(discriminate)) as [H _].
  exact H.
Defined.

(** C4 counterexample: the answer holds the complete JSON payload as its first
    balanced region, and that region alone yields a verdict; prose after it
    mentions [{0-10}], so the greedy regex runs to that last ['}'], the span
    does not decode and the judge returns the could-not-parse error. *)
Lemma judge_trailing_brace_prose :
  first_balanced trailing_brace_response = Some (sample_payload six_scores other_scores) /\
  judge_from_response JsonSubset.loads_subset "claude" (sample_payload six_scores other_scores) =
    JVerdict sample_verdict /\
  json_match trailing_brace_response <> Some (sample_payload six_scores other_scores) /\
  match judge_from_response JsonSubset.loads_subset "claude" trailing_brace_response with
  | JError m => String.prefix "[ERROR: Could not parse judge response as JSON - Extra data" m = true
  | JVerdict _ => False
  end.
Proof.
  split; [vm_compute; reflexivity|].
  split; [vm_compute; reflexivity|].
  split; [vm_compute; discriminate|].
  vm_compute. reflexivity.
Qed.

Lemma judge_from_response_span_witness :
  str_in "[ERROR:" trailing_brace_response = false /\
  (forall pre mid post,
     trailing_brace_response = pre ++ "{" ++ mid ++ "}" ++ post ->
     has_char "{" pre = false -> has_char "}" post = false ->
     parse_judge_response JsonSubset.loads_subset trailing_brace_response =
     JsonSubset.loads_subset ("{" ++ mid ++ "}")).
Proof.
  assert (Hok : str_in "[ERROR:" trailing_brace_response = false) by (vm_compute; reflexivity).
  split; [exact Hok|].
  exact (proj1 (judge_from_response_span JsonSubset.loads_subset "claude" _ Hok)).
Defined.

Lemma judge_totals_recomputed_witness :
  judge_from_response JsonSubset.loads_subset "claude" (sample_payload six_scores other_scores) =
    JVerdict sample_verdict /\
  parse_judge_response JsonSubset.loads_subset (sample_payload six_scores other_scores) =
    inr sample_data /\
  getitem sample_data "pro_scores" = inr (JObj (six_kvs [7; 6; 8; 9; 7; 8]%Z)) /\
  getitem sample_data "con_scores" = inr (JObj (six_kvs [5; 5; 6; 7; 6; 5]%Z)) /\
  Permutation (map fst (six_kvs [7; 6; 8; 9; 7; 8]%Z)) score_keys /\
  Permutation (map fst (six_kvs [5; 5; 6; 7; 6; 5]%Z)) score_keys /\
  py_sum (sheet_values (v_pro sample_verdict)) = inr (total (v_pro sample_verdict)).
Proof.
  assert (Hv : judge_from_response JsonSubset.loads_subset "claude"
                 (sample_payload six_scores other_scores) = JVerdict sample_verdict)
    by (vm_compute; reflexivity).
  assert (Hd : parse_judge_response JsonSubset.loads_subset
                 (sample_payload six_scores other_scores) = inr sample_data)
    by (vm_compute; reflexivity).
  assert (Hp : getitem sample_data "pro_scores" = inr (JObj (six_kvs [7; 6; 8; 9; 7; 8]%Z)))
    by reflexivity.
  assert (Hc : getitem sample_data "con_scores" = inr (JObj (six_kvs [5; 5; 6; 7; 6; 5]%Z)))
    by reflexivity.
  assert (Hps : Permutation (map fst (six_kvs [7; 6; 8; 9; 7; 8]%Z)) score_keys)
    by apply Permutation_refl.
  assert (Hcs : Permutation (map fst (six_kvs [5; 5; 6; 7; 6; 5]%Z)) score_keys)
    by apply Permutation_refl.
  split; [exact Hv|]. split; [exact Hd|]. split; [exact Hp|]. split; [exact Hc|].
  split; [exact Hps|]. split; [exact Hcs|].
  exact (proj1 (proj2 (proj2 (judge_totals_recomputed JsonSubset.loads_subset "claude" _
                                 sample_verdict sample_data _ _ Hv Hd Hp Hc Hps Hcs)))).
Defined.



(** C9 counterexample: narrating a two-round debate with a verdict makes one
    speech request, in the narrator voice, whose text holds the PRO opening
    and the judge's full commentary; the audio returned is that request's. *)
Lemma generate_audio_single_voice_full_commentary :
  map synth_voice (snd sample_audio_run) = [narrator_voice] /\
  str_in "Opening for." (synth_text (hd (mkSynth "" "" "") (snd sample_audio_run))) = true /\
  str_in "Both sides were close." (synth_text (hd (mkSynth "" "" "") (snd sample_audio_run))) = true /\
  fst sample_audio_run = AudioBytes [x49; x44; x33].
Proof. vm_compute. repeat split. Qed.

Lemma generate_audio_one_narrator_call_witness :
  "k" <> "" /\
  py_join_nl (audio_script "X" sample_log "Adversarial" None (Some (JVerdict sample_verdict))
                "claude" "gpt") = inr sample_audio_script /\
  sample_audio_run =
    (AudioBytes [x49; x44; x33], [mkSynth "en-US" narrator_voice sample_audio_script]).
Proof.
  assert (Hk : "k" <> "") by discriminate.
  assert (Hj : py_join_nl (audio_script "X" sample_log "Adversarial" None
                             (Some (JVerdict sample_verdict)) "claude" "gpt") =
               inr sample_audio_script) by (vm_compute; reflexivity).
  split; [exact Hk|]. split; [exact Hj|].
  exact (proj1 (generate_audio_one_narrator_call mp3_tts "k" "X" "Adversarial" "claude" "gpt"
                  sample_audio_script sample_log None (Some (JVerdict sample_verdict)) [] Hk Hj)).
Defined.

(** Witness of [run_debate_network_calls]: a two-round Claude against GPT
    run. *)
Lemma run_debate_network_calls_witness :
  route "claude" = Some PClaude /\ checks_key PClaude && negb (all_keys PClaude) = false /\
  route "gpt" = Some POpenAI /\ checks_key POpenAI && negb (all_keys POpenAI) = false /\
  exists calls,
    net (snd (run_debate len_vendor all_keys "X" "claude" "gpt" 2 50 "Adversarial" world0)) =
      app [] calls /\
    map call_sig calls =
      flat_map (turn_sigs "claude" "gpt" PClaude POpenAI 50)
        (fst (run_debate len_vendor all_keys "X" "claude" "gpt" 2 50 "Adversarial" world0)).
Proof.
  do 4 (split; [reflexivity|]).
  exact (run_debate_network_calls all_keys "claude" "gpt" PClaude POpenAI
           eq_refl eq_refl eq_refl eq_refl len_vendor "X" 2 50 "Adversarial" world0).
Defined.

(** Witness of [judge_pro_scores_errors]: a PRO score given as a string. *)
Lemma judge_pro_scores_errors_witness :
  str_in "[ERROR:" quoted_score_payload = false /\
  parse_judge_response JsonSubset.loads_subset quoted_score_payload = inr quoted_score_data /\
  judge_from_response JsonSubset.loads_subset "claude" quoted_score_payload =
    JError ("[ERROR: Judge evaluation failed - unsupported operand type(s) for +: 'int' and " ++
            sq ++ "str" ++ sq ++ "]").
Proof.
  assert (Hok : str_in "[ERROR:" quoted_score_payload = false) by (vm_compute; reflexivity).
  assert (Hd : parse_judge_response JsonSubset.loads_subset quoted_score_payload =
               inr quoted_score_data) by (vm_compute; reflexivity).
  split; [exact Hok|]. split; [exact Hd|].
  exact (proj2 (proj2 (judge_pro_scores_errors JsonSubset.loads_subset "claude" _ _ Hok Hd))
           [("argument_strength", JInt 7)] "evidence_quality" (JStr "high")
           (combine ["counterpoint_effectiveness"; "good_faith"; "factual_accuracy";
                     "rhetorical_skill"] (map JInt [8; 9; 7; 8]%Z))
           ltac:(vm_compute; reflexivity) eq_refl eq_refl).
Defined.

(** Witness of [create_txt_export_raises]: a verdict with a [null]
    commentary. *)
Lemma create_txt_export_raises_witness :
  assoc "summary" [("summary", JStr "S")] = Some (JStr "S") /\
  match create_txt_export sample_now sample_log "X" "Adversarial" (Some [("summary", JStr "S")])
          (Some (JVerdict null_commentary_verdict)) with
  | inl _ => false
  | inr _ => true
  end = txt_judging_ok (Some (JVerdict null_commentary_verdict)).
Proof.
  assert (Hs : assoc "summary" [("summary", JStr "S")] = Some (JStr "S")) by reflexivity.
  split; [exact Hs|].
  exact (create_txt_export_raises sample_now sample_log "X" "Adversarial" _ "S"
           (Some (JVerdict null_commentary_verdict)) Hs).
Defined.

(** Witness of [create_txt_export_layout]: the transcript of a two-round
    debate with a verdict. *)
Lemma create_txt_export_layout_witness :
  create_txt_export sample_now sample_log "X" "Adversarial" (Some [("summary", JStr "S")])
    (Some (JVerdict sample_verdict)) = inr sample_txt /\
  exists rest,
    sample_txt = join_nl (app [eq80; "AI DEBATE ARENA - DEBATE TRANSCRIPT"; eq80; "Topic: " ++ "X";
                               "Mode: " ++ "Adversarial"; "Date: " ++ sample_now;
                               "Total Rounds: " ++ str_Z (Z.of_nat (length sample_log)); eq80; ""]
                         (app (flat_map (fun e => ["ROUND " ++ str_Z (round e); dash80;
                                                   "PRO (" ++ pro_ai e ++ "):"; pro_response e; "";
                                                   "CON (" ++ con_ai e ++ "):"; con_response e; "";
                                                   eq80; ""]) sample_log)
                              rest)).
Proof.
  assert (H : create_txt_export sample_now sample_log "X" "Adversarial"
                (Some [("summary", JStr "S")]) (Some (JVerdict sample_verdict)) = inr sample_txt)
    by (vm_compute; reflexivity).
  split; [exact H|].
  exact (create_txt_export_layout sample_now sample_log "X" "Adversarial" _ _ sample_txt H).
Defined.

(** Witness of [app_run_errors_skip_judge_audio]: judging and audio asked
    for, and the GPT call of round 2 failing. *)
Lemma app_run_errors_skip_judge_audio_witness :
  missing_keys env_all "claude" "gpt" true (Some "claude") true = [] /\
  has_errors (fst (run_debate (fail_at 3 "timeout" len_vendor) all_keys "X" "claude" "gpt"
                     2 50 "Adversarial" world0)) = true /\
  match app_run (fail_at 3 "timeout" len_vendor) all_keys JsonSubset.loads_subset true mp3_tts
          env_all sample_now "X" "claude" "gpt" 2 50 "Adversarial" true (Some "claude") true
          world0 [] with
  | (AppDone _ _ None _ _ _ None, _, []) => True
  | _ => False
  end.
Proof.
  assert (Hk : missing_keys env_all "claude" "gpt" true (Some "claude") true = [])
    by (vm_compute; reflexivity).
  assert (He : has_errors (fst (run_debate (fail_at 3 "timeout" len_vendor) all_keys "X" "claude"
                                  "gpt" 2 50 "Adversarial" world0)) = true)
    by (vm_compute; reflexivity).
  split; [exact Hk|]. split; [exact He|].
  destruct (app_run_errors_skip_judge_audio (fail_at 3 "timeout" len_vendor) all_keys
              JsonSubset.loads_subset true mp3_tts env_all sample_now "X" "claude" "gpt" 2 50
              "Adversarial" true (Some "claude") true world0 [] Hk He) as [txt E].
  rewrite E. exact I.
Defined.
